(** * SNAP single-end aligner: a shallow embedding of BaseAligner.h,
      ReadWriter.cpp and FASTA.cpp, and the properties checked on it.

    Part I holds the definitions, each translated from the C++ function
    whose name it keeps.  Part II holds the lemmas.

    Conventions.
    - A machine integer is a [Z]; a conversion to a fixed width is written
      out ([to_u64], [to_i64], [to_u8]).
    - A [double] is an IEEE 754 binary64 value, [spec_float] of the
      Standard Library with [prec = 53] and [emax = 1024].
    - A [char] is a [byte]; a C string is a [list byte] read up to its
      first NUL.
    - A C++ array updated in place is a list with stdpp's lookup and
      insert; an access out of range is [None]. *)

From Stdlib Require Import ZArith Lia Bool List.
From Stdlib Require Import Floats.SpecFloat.
From Stdlib Require Import Strings.Byte.
From stdpp Require Import base list.

Local Open Scope Z_scope.

(* ===================================================================== *)
(** * Part I.  Definitions                                                *)
(* ===================================================================== *)

(** ** Machine integers *)

Module Int.

(** [(_uint64) z]: the value of [z] as an unsigned 64-bit integer. *)
Definition to_u64 (z : Z) : Z := z mod 2 ^ 64.

(** [(_int64) z]: the value of [z] as a two's complement 64-bit integer. *)
Definition to_i64 (z : Z) : Z := (z + 2 ^ 63) mod 2 ^ 64 - 2 ^ 63.

(** [(BYTE) z]: the value of [z] as an unsigned char. *)
Definition to_u8 (z : Z) : Z := z mod 2 ^ 8.

(** [(unsigned) z] and [(int) z]: 32 bits. *)
Definition to_u32 (z : Z) : Z := z mod 2 ^ 32.
Definition to_i32 (z : Z) : Z := (z + 2 ^ 31) mod 2 ^ 32 - 2 ^ 31.

Definition u32_add (a b : Z) : Z := to_u32 (a + b).
Definition i32_add (a b : Z) : Z := to_i32 (a + b).
Definition i32_neg (a : Z) : Z := to_i32 (- a).
Definition u64_mul (a b : Z) : Z := to_u64 (a * b).
Definition u64_sub (a b : Z) : Z := to_u64 (a - b).
Definition i64_add (a b : Z) : Z := to_i64 (a + b).
Definition i64_sub (a b : Z) : Z := to_i64 (a - b).

Definition in_u64 (z : Z) : Prop := 0 <= z < 2 ^ 64.
Definition in_i64 (z : Z) : Prop := - 2 ^ 63 <= z < 2 ^ 63.

End Int.

(** ** IEEE doubles *)

Module Double.

Definition double : Type := spec_float.

Definition prec : Z := 53.
Definition emax : Z := 1024.

Definition zero : double := S754_zero false.

Definition add (x y : double) : double := SFadd prec emax x y.
Definition sub (x y : double) : double := SFsub prec emax x y.

(** The comparisons of C++: false as soon as one side is a NaN. *)
Definition lt (x y : double) : bool := SFltb x y.
Definition gt (x y : double) : bool := SFltb y x.
Definition le (x y : double) : bool := SFleb x y.
Definition ge (x y : double) : bool := SFleb y x.

Definition is_nan (x : double) : bool :=
  match x with S754_nan => true | _ => false end.

(** Modelled from the spec: the macro [__max] comes from a header that is
    not part of the sources at hand (Compat.h, or stdlib.h with MSVC);
    the spec calls it "max(0, x)" and "clamp to 0".  It is the usual
    [((a) > (b)) ? (a) : (b)]. *)
Definition __max (a b : double) : double := if gt a b then a else b.

(** Zero of either sign, a positive number or plus infinity. *)
Definition not_below_zero (x : double) : bool :=
  match x with
  | S754_zero _ | S754_infinity false | S754_finite false _ _ => true
  | _ => false
  end.

(** The spec's "max": [r] is the larger of [a] and [b]. *)
Definition is_max (r a b : double) : Prop :=
  le a r = true /\ le b r = true /\ (r = a \/ r = b).

End Double.

(** ** BaseAligner.h *)

Module BaseAligner.
Import Int.

(** [maxMergeDist], chosen by the compile-time flag [LONG_READS]. *)
Definition maxMergeDist (LONG_READS : bool) : Z :=
  if LONG_READS then 64 else 48.

Definition hashTableElementSize (LONG_READS : bool) : Z :=
  maxMergeDist LONG_READS.

(** A [GenomeLocation] is a signed 64-bit offset into the padded genome. *)
Definition GenomeLocation : Type := Z.

Definition GenomeLocationAsInt64 (g : GenomeLocation) : Z := g.

(** [decomposeGenomeLocation]: [lowOrder] is always written, [highOrder]
    only when the pointer given for it is not NULL ([wantHighOrder]). *)
Definition decomposeGenomeLocation (LONG_READS : bool)
    (genomeLocation : GenomeLocation) (wantHighOrder : bool)
    : option Z * Z :=
  let lowOrder :=
    to_u64 (GenomeLocationAsInt64 genomeLocation)
      mod hashTableElementSize LONG_READS in
  (if wantHighOrder
   then Some (u64_sub (to_u64 (GenomeLocationAsInt64 genomeLocation)) lowOrder)
   else None,
   lowOrder).

(** [hash]: one multiplication on [_uint64]. *)
Definition hash (key : Z) : Z := u64_mul key 131.

(** The words of the spec about the window size [W] and an element's
    base location: [W] is a power of two, and the base location is the
    location "with its low log2 W bits cleared". *)
Definition isPowerOfTwo (W : Z) : Prop := exists k, 0 <= k /\ W = 2 ^ k.

Definition clearLowBits (n : Z) (R : Z) : Z := Z.shiftl (Z.shiftr R n) n.

Definition windowAsSpecified (LONG_READS : bool) : Prop :=
  let W := hashTableElementSize LONG_READS in
  W = (if LONG_READS then 64 else 48) /\
  Z.even W = true /\
  W <= 64 /\
  isPowerOfTwo W /\
  forall R : GenomeLocation, 0 <= R < 2 ^ 63 ->
    fst (decomposeGenomeLocation LONG_READS R true)
    = Some (clearLowBits (Z.log2 W) R).

(** The [seedUsed] bit vector: a [BYTE] array, one bit per read offset. *)
Definition IsSeedUsed (seedUsed : list Z) (indexInRead : Z) : option bool :=
  match seedUsed !! Z.to_nat (indexInRead / 8) with
  | Some b => Some (negb (Z.land b (Z.shiftl 1 (indexInRead mod 8)) =? 0))
  | None => None
  end.

Definition SetSeedUsed (seedUsed : list Z) (indexInRead : Z)
    : option (list Z) :=
  match seedUsed !! Z.to_nat (indexInRead / 8) with
  | Some b =>
      Some (<[Z.to_nat (indexInRead / 8) :=
                to_u8 (Z.lor b (Z.shiftl 1 (indexInRead mod 8)))]> seedUsed)
  | None => None
  end.

(** A run of [SetSeedUsed] calls, in order; it stops at the first index
    outside the array. *)
Fixpoint SetSeedsUsed (seedUsed : list Z) (indices : list Z)
    : option (list Z) :=
  match indices with
  | [] => Some seedUsed
  | i :: rest =>
      match SetSeedUsed seedUsed i with
      | Some seedUsed' => SetSeedsUsed seedUsed' rest
      | None => None
      end
  end.

End BaseAligner.

(** ** AlignmentResult.h, as far as the code at hand reads and writes it *)

Module AlignmentResult.
Import Double.

Inductive AlignmentResult : Type :=
| NotFound | SingleHit | MultipleHits | UnknownAlignment.

Inductive Direction : Type := FORWARD | RC.

Definition AlignmentResult_eqb (a b : AlignmentResult) : bool :=
  match a, b with
  | NotFound, NotFound | SingleHit, SingleHit
  | MultipleHits, MultipleHits | UnknownAlignment, UnknownAlignment => true
  | _, _ => false
  end.

Definition Direction_eqb (a b : Direction) : bool :=
  match a, b with
  | FORWARD, FORWARD | RC, RC => true
  | _, _ => false
  end.

Record SingleAlignmentResult : Type := {
  status : AlignmentResult;
  mapq : Z;
  location : Z;
  origLocation : Z;
  direction : Direction;
  score : Z;
  scorePriorToClipping : Z;
  agScore : Z;
  matchProbability : double;
  usedAffineGapScoring : bool;
  basesClippedBefore : Z;
  basesClippedAfter : Z;
  seedOffset : Z;
  clippingForReadAdjustment : Z;
  supplementary : bool;
  alignmentTimeInNanoseconds : Z
}.

End AlignmentResult.

(** ** BaseAligner::ScoreSet *)

Module ScoreSet.
Import Double AlignmentResult.

Record ScoreSet : Type := {
  bestScore : Z;
  bestScoreGenomeLocation : Z;
  bestScoreOrigGenomeLocation : Z;
  bestScoreDirection : Direction;
  bestScoreUsedAffineGapScoring : bool;
  bestScoreBasesClippedBefore : Z;
  bestScoreBasesClippedAfter : Z;
  bestScoreAGScore : Z;
  bestScoreSeedOffset : Z;
  bestScoreMatchProbability : double;
  probabilityOfAllCandidates : double;
  probabilityOfBestCandidate : double
}.

Definition set_probabilityOfAllCandidates (s : ScoreSet) (p : double)
    : ScoreSet :=
  {| bestScore := bestScore s;
     bestScoreGenomeLocation := bestScoreGenomeLocation s;
     bestScoreOrigGenomeLocation := bestScoreOrigGenomeLocation s;
     bestScoreDirection := bestScoreDirection s;
     bestScoreUsedAffineGapScoring := bestScoreUsedAffineGapScoring s;
     bestScoreBasesClippedBefore := bestScoreBasesClippedBefore s;
     bestScoreBasesClippedAfter := bestScoreBasesClippedAfter s;
     bestScoreAGScore := bestScoreAGScore s;
     bestScoreSeedOffset := bestScoreSeedOffset s;
     bestScoreMatchProbability := bestScoreMatchProbability s;
     probabilityOfAllCandidates := p;
     probabilityOfBestCandidate := probabilityOfBestCandidate s |}.

Definition set_probabilityOfBestCandidate (s : ScoreSet) (p : double)
    : ScoreSet :=
  {| bestScore := bestScore s;
     bestScoreGenomeLocation := bestScoreGenomeLocation s;
     bestScoreOrigGenomeLocation := bestScoreOrigGenomeLocation s;
     bestScoreDirection := bestScoreDirection s;
     bestScoreUsedAffineGapScoring := bestScoreUsedAffineGapScoring s;
     bestScoreBasesClippedBefore := bestScoreBasesClippedBefore s;
     bestScoreBasesClippedAfter := bestScoreBasesClippedAfter s;
     bestScoreAGScore := bestScoreAGScore s;
     bestScoreSeedOffset := bestScoreSeedOffset s;
     bestScoreMatchProbability := bestScoreMatchProbability s;
     probabilityOfAllCandidates := probabilityOfAllCandidates s;
     probabilityOfBestCandidate := p |}.

(** [probabilityOfAllCandidates = __max(0, probabilityOfAllCandidates - oldProbability)];
    the [int] literal 0 is converted to the double +0. *)
Definition updateProbabilityOfAllMatches (s : ScoreSet)
    (oldProbability : double) : ScoreSet :=
  set_probabilityOfAllCandidates s
    (__max zero (sub (probabilityOfAllCandidates s) oldProbability)).

Definition updateProbabilityOfBestMatch (s : ScoreSet)
    (newProbability : double) : ScoreSet :=
  let s1 := set_probabilityOfBestCandidate s newProbability in
  set_probabilityOfAllCandidates s1
    (add (probabilityOfAllCandidates s1) newProbability).

(** [bool updateBestScore(SingleAlignmentResult* result)]: the returned
    flag and the score set after the call. *)
Definition updateBestScore (s : ScoreSet) (result : SingleAlignmentResult)
    : bool * ScoreSet :=
  let s1 :=
    set_probabilityOfAllCandidates s
      (add (probabilityOfAllCandidates s) (matchProbability result)) in
  if (agScore result >? bestScoreAGScore s1)
     || ((agScore result =? bestScoreAGScore s1)
         && gt (matchProbability result) (bestScoreMatchProbability s1))
  then
    (true,
     {| bestScore := score result;
        bestScoreGenomeLocation := location result;
        bestScoreOrigGenomeLocation := origLocation result;
        bestScoreDirection := direction result;
        bestScoreUsedAffineGapScoring := usedAffineGapScoring result;
        bestScoreBasesClippedBefore := basesClippedBefore result;
        bestScoreBasesClippedAfter := basesClippedAfter result;
        bestScoreAGScore := agScore result;
        bestScoreSeedOffset := seedOffset result;
        bestScoreMatchProbability := matchProbability result;
        probabilityOfAllCandidates := probabilityOfAllCandidates s1;
        probabilityOfBestCandidate := probabilityOfBestCandidate s1 |})
  else (false, s1).

(** The order the spec names: [(a1, p1)] lexicographically strictly
    above [(a2, p2)]. *)
Definition lex_exceeds (a1 : Z) (p1 : double) (a2 : Z) (p2 : double)
    : Prop :=
  a1 > a2 \/ (a1 = a2 /\ gt p1 p2 = true).

(** The ten fields of the best candidate hold what [result] holds. *)
Definition installed (s : ScoreSet) (result : SingleAlignmentResult)
    : Prop :=
  bestScore s = score result /\
  bestScoreAGScore s = agScore result /\
  bestScoreMatchProbability s = matchProbability result /\
  bestScoreGenomeLocation s = location result /\
  bestScoreOrigGenomeLocation s = origLocation result /\
  bestScoreDirection s = direction result /\
  bestScoreUsedAffineGapScoring s = usedAffineGapScoring result /\
  bestScoreBasesClippedBefore s = basesClippedBefore result /\
  bestScoreBasesClippedAfter s = basesClippedAfter result /\
  bestScoreSeedOffset s = seedOffset result.

(** The ten fields of the best candidate and [probabilityOfBestCandidate]
    are the same in [s] and [s']. *)
Definition same_best (s s' : ScoreSet) : Prop :=
  bestScore s' = bestScore s /\
  bestScoreAGScore s' = bestScoreAGScore s /\
  bestScoreMatchProbability s' = bestScoreMatchProbability s /\
  bestScoreGenomeLocation s' = bestScoreGenomeLocation s /\
  bestScoreOrigGenomeLocation s' = bestScoreOrigGenomeLocation s /\
  bestScoreDirection s' = bestScoreDirection s /\
  bestScoreUsedAffineGapScoring s' = bestScoreUsedAffineGapScoring s /\
  bestScoreBasesClippedBefore s' = bestScoreBasesClippedBefore s /\
  bestScoreBasesClippedAfter s' = bestScoreBasesClippedAfter s /\
  bestScoreSeedOffset s' = bestScoreSeedOffset s /\
  probabilityOfBestCandidate s' = probabilityOfBestCandidate s.

End ScoreSet.

(** ** Genome.h, as far as ReadWriter.cpp uses it *)

Module Genome.

Record Contig : Type := {
  beginningLocation : Z;
  length : Z
}.

(** A [const Genome::Contig *] is [None] for NULL and otherwise the
    index of the contig in the genome's contig array, so that comparing
    two pointers is comparing two indices. *)
Definition ContigPtr : Type := option nat.

Definition ContigPtr_eqb (p q : ContigPtr) : bool :=
  match p, q with
  | None, None => true
  | Some i, Some j => Nat.eqb i j
  | _, _ => false
  end.

(** The three things [writeReads] asks of a genome: the contig array
    behind the pointers, [getContigAtLocation] and
    [getChromosomePadding].  Their code is in Genome.cpp; here they are
    the genome's data. *)
Record Genome : Type := {
  contig : nat -> Contig;
  getContigAtLocation : Z -> ContigPtr;
  getChromosomePadding : Z
}.

End Genome.

(** ** ReadWriter.cpp *)

Module SimpleReadWriter.
Import Int AlignmentResult.

(** A call either returns or ends the process through [soft_exit]. *)
Inductive Outcome (A : Type) : Type :=
| Returns (a : A)
| SoftExit (code : Z).
Arguments Returns {A} a.
Arguments SoftExit {A} code.

(** *** checkIfTooSlow *)

Definition tooSlowCheckPeriod : Z := 5 * 60 * 1000.
Definition tooSlowCheckMinReadsPerCheckPeriod : Z := 5 * 60 * 1000.

Record Watchdog : Type := {
  killIfTooSlow : bool;
  lastTooSlowCheck : Z;
  writesSinceLastTooSlowCheck : Z
}.

(** [now] is what [timeInMillis()] answers during the call. *)
Definition checkIfTooSlow (now : Z) (w : Watchdog) : Outcome Watchdog :=
  if killIfTooSlow w then
    if i64_add (lastTooSlowCheck w) tooSlowCheckPeriod <=? now then
      if negb (lastTooSlowCheck w =? 0)
         && (writesSinceLastTooSlowCheck w
               <? tooSlowCheckMinReadsPerCheckPeriod)
      then SoftExit 1
      else
        Returns {| killIfTooSlow := killIfTooSlow w;
                   lastTooSlowCheck := now;
                   writesSinceLastTooSlowCheck := i64_add 0 1 |}
    else
      Returns {| killIfTooSlow := killIfTooSlow w;
                 lastTooSlowCheck := lastTooSlowCheck w;
                 writesSinceLastTooSlowCheck :=
                   i64_add (writesSinceLastTooSlowCheck w) 1 |}
  else Returns w.

(** *** writeReads: formatting one result *)

(** What [writeReads] reads and sets of a [Read]. *)
Record Read : Type := {
  getDataLength : Z;
  additionalFrontClipping : Z;
  additionalBackClipping : Z
}.

Definition setAdditionalFrontClipping (rd : Read) (c : Z) : Read :=
  {| getDataLength := getDataLength rd;
     additionalFrontClipping := c;
     additionalBackClipping := additionalBackClipping rd |}.

Definition setAdditionalBackClipping (rd : Read) (c : Z) : Read :=
  {| getDataLength := getDataLength rd;
     additionalFrontClipping := additionalFrontClipping rd;
     additionalBackClipping := c |}.

(** The variables of the loop over one result. *)
Record Attempt : Type := {
  result : SingleAlignmentResult;      (* results[whichResult] *)
  finalLocation : Z;                   (* finalLocations[whichResult] *)
  read : Read;
  addFrontClipping : Z;
  cumulativeAddFrontClipping : Z;
  nAdjustments : Z;
  blewBuffer : bool
}.

Section WriteReads.

Variable genome : Genome.Genome.
Variable InvalidGenomeLocation : Z.

(** [format->writeRead] with the affine-gap and with the edit-distance
    formatter: from the read, the result, the location to write and
    the incoming [addFrontClipping], whether the record was written
    and the [addFrontClipping] it leaves. *)
Variable writeReadAG writeReadLV :
  Read -> SingleAlignmentResult -> Z -> Z -> bool * Z.

(** "Just give up on the read." *)
Definition giveUp (r : SingleAlignmentResult) : SingleAlignmentResult :=
  {| status := NotFound;
     mapq := mapq r;
     location := InvalidGenomeLocation;
     origLocation := origLocation r;
     direction := FORWARD;
     score := -1;
     scorePriorToClipping := scorePriorToClipping r;
     agScore := agScore r;
     matchProbability := matchProbability r;
     usedAffineGapScoring := usedAffineGapScoring r;
     basesClippedBefore := basesClippedBefore r;
     basesClippedAfter := basesClippedAfter r;
     seedOffset := seedOffset r;
     clippingForReadAdjustment := clippingForReadAdjustment r;
     supplementary := supplementary r;
     alignmentTimeInNanoseconds := alignmentTimeInNanoseconds r |}.

Definition originalContig (r : SingleAlignmentResult) : Genome.ContigPtr :=
  if AlignmentResult_eqb (status r) NotFound then None
  else Genome.getContigAtLocation genome (location r).

Definition newContig (r : SingleAlignmentResult) (afc : Z)
    : Genome.ContigPtr :=
  if AlignmentResult_eqb (status r) NotFound then None
  else Genome.getContigAtLocation genome (i64_add (location r) afc).

(** [c->beginningLocation + c->length - genome->getChromosomePadding()] *)
Definition lastLocation (c : nat) : Z :=
  i64_sub
    (i64_add (Genome.beginningLocation (Genome.contig genome c))
             (Genome.length (Genome.contig genome c)))
    (Genome.getChromosomePadding genome).

(** The test of the affine-gap path; the bound is read through
    [newContig]. *)
Definition mustGiveUpAG (a : Attempt) : bool :=
  match newContig (result a) (addFrontClipping a) with
  | None => true
  | Some nc =>
      negb (Genome.ContigPtr_eqb (Some nc) (originalContig (result a)))
      || (i64_add (finalLocation a) (addFrontClipping a) >? lastLocation nc)
      || (nAdjustments a >? getDataLength (read a))
  end.

(** The test of the edit-distance path; the bound is read through
    [originalContig], which the two tests before it have shown to be
    the contig [newContig] points to. *)
Definition mustGiveUpLV (a : Attempt) : bool :=
  match newContig (result a) (addFrontClipping a) with
  | None => true
  | Some nc =>
      if negb (Genome.ContigPtr_eqb (Some nc) (originalContig (result a)))
      then true
      else
        match originalContig (result a) with
        | Some oc =>
            (i64_add (finalLocation a) (addFrontClipping a)
               >? lastLocation oc)
            || (nAdjustments a >? getDataLength (read a))
        | None => true
        end
  end.

Definition dropAttempt (a : Attempt) : Attempt :=
  {| result := giveUp (result a);
     finalLocation := InvalidGenomeLocation;
     read := read a;
     addFrontClipping := addFrontClipping a;
     cumulativeAddFrontClipping := cumulativeAddFrontClipping a;
     nAdjustments := nAdjustments a;
     blewBuffer := blewBuffer a |}.

Definition countAdjustment (a : Attempt) : Attempt :=
  {| result := result a;
     finalLocation := finalLocation a;
     read := read a;
     addFrontClipping := addFrontClipping a;
     cumulativeAddFrontClipping := cumulativeAddFrontClipping a;
     nAdjustments := u32_add (nAdjustments a) 1;
     blewBuffer := blewBuffer a |}.

Definition setBlewBuffer (a : Attempt) : Attempt :=
  {| result := result a;
     finalLocation := finalLocation a;
     read := read a;
     addFrontClipping := addFrontClipping a;
     cumulativeAddFrontClipping := cumulativeAddFrontClipping a;
     nAdjustments := nAdjustments a;
     blewBuffer := true |}.

Definition setAddFrontClipping (a : Attempt) (afc : Z) : Attempt :=
  {| result := result a;
     finalLocation := finalLocation a;
     read := read a;
     addFrontClipping := afc;
     cumulativeAddFrontClipping := cumulativeAddFrontClipping a;
     nAdjustments := nAdjustments a;
     blewBuffer := blewBuffer a |}.

(** The part of the affine-gap loop body after the two early tests:
    give up, or clip the read (insertion) or move the location
    (deletion). *)
Definition redoAG (a : Attempt) : Attempt :=
  if mustGiveUpAG a then dropAttempt a
  else if addFrontClipping a <? 0 then
    let cum := i32_add (cumulativeAddFrontClipping a) (addFrontClipping a) in
    {| result := result a;
       finalLocation := finalLocation a;
       read :=
         if Direction_eqb (direction (result a)) FORWARD
         then setAdditionalFrontClipping (read a) (i32_neg cum)
         else setAdditionalBackClipping (read a) (i32_neg cum);
       addFrontClipping := addFrontClipping a;
       cumulativeAddFrontClipping := cum;
       nAdjustments := nAdjustments a;
       blewBuffer := blewBuffer a |}
  else
    {| result := result a;
       finalLocation := i64_add (location (result a)) (addFrontClipping a);
       read := read a;
       addFrontClipping := addFrontClipping a;
       cumulativeAddFrontClipping := cumulativeAddFrontClipping a;
       nAdjustments := nAdjustments a;
       blewBuffer := blewBuffer a |}.

(** The same part of the edit-distance loop body. *)
Definition redoLV (a : Attempt) : Attempt :=
  if mustGiveUpLV a then dropAttempt a
  else
    let cum :=
      if addFrontClipping a >? 0
      then i32_add (cumulativeAddFrontClipping a) (addFrontClipping a)
      else cumulativeAddFrontClipping a in
    {| result := result a;
       finalLocation := i64_add (finalLocation a) (addFrontClipping a);
       read :=
         if addFrontClipping a >? 0
         then setAdditionalFrontClipping (read a) cum
         else read a;
       addFrontClipping := addFrontClipping a;
       cumulativeAddFrontClipping := cum;
       nAdjustments := nAdjustments a;
       blewBuffer := blewBuffer a |}.

(** One turn of a loop body, entered when [writeRead] has answered
    false and left [addFrontClipping]: the variables after it, and
    whether the loop goes on ([false] is the [break]). *)
Definition adjust (redo : Attempt -> Attempt) (a : Attempt)
    : Attempt * bool :=
  let a1 := countAdjustment a in
  if addFrontClipping a1 =? 0 then (setBlewBuffer a1, false)
  else (redo a1, true).

Definition adjustAG : Attempt -> Attempt * bool := adjust redoAG.
Definition adjustLV : Attempt -> Attempt * bool := adjust redoLV.

(** [while (!format->writeRead(...)) { ... }], at most [fuel] calls of
    [writeRead]; [None] when the fuel does not suffice. *)
Fixpoint formatLoop (writeRead : Read -> SingleAlignmentResult -> Z -> Z -> bool * Z)
    (redo : Attempt -> Attempt) (fuel : nat) (a : Attempt)
    : option Attempt :=
  match fuel with
  | O => None
  | S fuel' =>
      let '(written, afc) :=
        writeRead (read a) (result a) (finalLocation a)
                  (addFrontClipping a) in
      let a0 := setAddFrontClipping a afc in
      if written then Some a0
      else
        let '(a1, again) := adjust redo a0 in
        if again then formatLoop writeRead redo fuel' a1 else Some a1
  end.

(** The body of the loop over the results, up to the test of
    [blewBuffer], for the result [r] and the read [rd]. *)
Definition formatResult (useAffineGap : bool) (fuel : nat)
    (rd : Read) (r : SingleAlignmentResult) : option Attempt :=
  let a :=
    {| result := r;
       finalLocation := location r;
       read := setAdditionalFrontClipping rd (clippingForReadAdjustment r);
       addFrontClipping := 0;
       cumulativeAddFrontClipping := 0;
       nAdjustments := 0;
       blewBuffer := false |} in
  if useAffineGap && (usedAffineGapScoring r || (score r >? 0))
  then formatLoop writeReadAG redoAG fuel a
  else formatLoop writeReadLV redoLV fuel a.

(** The location an adjustment moves the record to.  The affine-gap
    path assigns [results[whichResult].location + addFrontClipping] to
    [finalLocations[whichResult]]; the edit-distance path adds
    [addFrontClipping] to [finalLocations[whichResult]]. *)
Definition adjustedLocationAG (a : Attempt) : Z :=
  i64_add (location (result a)) (addFrontClipping a).

Definition adjustedLocationLV (a : Attempt) : Z :=
  i64_add (finalLocation a) (addFrontClipping a).

(** Stated from the claim's words, for one adjusted location: moving a
    candidate from [original] to [adjusted] crosses a contig boundary
    when the contig at the adjusted location is null or is not the
    contig at the original location, or the adjusted location is past
    the contig's end less the chromosome padding. *)
Definition crossesContigBoundary (original adjusted : Z) : Prop :=
  match Genome.getContigAtLocation genome adjusted with
  | None => True
  | Some nc =>
      Genome.getContigAtLocation genome original <> Some nc \/
      adjusted > lastLocation nc
  end.

(** A dropped candidate. *)
Definition dropped (r : SingleAlignmentResult) : Prop :=
  status r = NotFound /\
  location r = InvalidGenomeLocation /\
  score r = -1 /\
  direction r = FORWARD.

End WriteReads.
End SimpleReadWriter.

(** ** FASTA.cpp *)

Module FASTA.
Import Int.
Import SimpleReadWriter (Outcome, Returns, SoftExit).
Local Open Scope byte_scope.

(** [(unsigned char) c] as an index into a 256-entry table. *)
Definition index (c : byte) : nat := N.to_nat (Byte.to_N c).

(** [toupper] of the C library in the "C" locale. *)
Definition toupper (c : byte) : byte :=
  let n := Byte.to_N c in
  if ((97 <=? n) && (n <=? 122))%N then
    match Byte.of_N (n - 32) with
    | Some u => u
    | None => c
    end
  else c.

(** [isValidGenomeCharacter]: 256 times false, then the ten letters. *)
Definition isValidGenomeCharacter : list bool :=
  foldl (fun table c => <[index c := true]> table)
        (replicate 256%nat false)
        ["A"; "T"; "C"; "G"; "N"; "a"; "t"; "c"; "g"; "n"].

Definition valid (c : byte) : bool :=
  match isValidGenomeCharacter !! index c with
  | Some b => b
  | None => false
  end.

(** The contents of a C string that starts with [s]: what comes before
    the first [ch]. With [ch] NUL this reads a buffer as a string; with
    another [ch] it is the string after
    [t = strchr(s, ch); if (t != NULL) *t = 0]. *)
Fixpoint cut_at (ch : byte) (s : list byte) : list byte :=
  match s with
  | [] => []
  | c :: rest => if Byte.eqb c ch then [] else c :: cut_at ch rest
  end.

Definition c_str (buffer : list byte) : list byte := cut_at "000" buffer.

(** [lineBuffer[0]]; the terminating NUL when the string is empty. *)
Definition first_char (s : list byte) : byte :=
  match s with
  | [] => "000"
  | c :: _ => c
  end.

(** The calls that [ReadFASTAGenome] makes on the genome it builds. *)
Inductive GenomeCall : Type :=
| addData (data : list byte)
| startContig (name : list byte)
| MarkALTContigIfAppropriate (contigName : list byte) (contigSize : Z)
| fillInContigLengths
| sortContigsByName.

Record Reader : Type := {
  warningIssued : bool;
  inAContig : bool;
  contigLength : Z;
  lastContigName : list byte;
  calls : list GenomeCall          (* oldest first *)
}.

Definition call (st : Reader) (c : GenomeCall) : Reader :=
  {| warningIssued := warningIssued st;
     inAContig := inAContig st;
     contigLength := contigLength st;
     lastContigName := lastContigName st;
     calls := calls st ++ [c] |}.

Section ReadFASTAGenome.

Variable pieceNameTerminatorCharacters : option (list byte).
Variable spaceIsAPieceNameTerminator : bool.
Variable chromosomePaddingSize : Z.

Definition paddingBuffer : list byte :=
  replicate (Z.to_nat chromosomePaddingSize) "n".

(** The name handed to [startContig]: [lineBuffer + 1] after the cuts
    at the terminators, at space and tab, at newline and return. *)
Definition contigName (line : list byte) : list byte :=
  let name := tail line in
  let name :=
    match pieceNameTerminatorCharacters with
    | Some terminators =>
        foldl (fun s t => cut_at t s) name (c_str terminators)
    | None => name
    end in
  let name :=
    if spaceIsAPieceNameTerminator
    then cut_at "009" (cut_at " " name)
    else name in
  cut_at "013" (cut_at "010" name).

(** A sequence line after the in-place edits: cut at the newline,
    [toupper] on each character, then 'N' for each character that the
    table refuses. *)
Definition sequenceLine (line : list byte) : list byte :=
  let upper := map toupper (cut_at "010" line) in
  map (fun c => if valid c then c else "N") upper.

(** One turn of the second [while] loop, for the line that
    [reallocatingFgets] has left in [lineBuffer]. *)
Definition readLine (st : Reader) (lineBuffer : list byte)
    : Outcome Reader :=
  let line := c_str lineBuffer in
  if Byte.eqb (first_char line) ">" then
    let st :=
      if inAContig st
      then call st (MarkALTContigIfAppropriate (lastContigName st)
                                                (contigLength st))
      else st in
    let st := call st (addData (c_str paddingBuffer)) in
    let name := contigName line in
    let st := call st (startContig name) in
    Returns {| warningIssued := warningIssued st;
               inAContig := true;
               contigLength := 0;
               lastContigName := name;
               calls := calls st |}
  else if negb (inAContig st) then SoftExit 1
  else
    let lineLen := Z.of_nat (length (cut_at "010" line)) in
    let fixed := sequenceLine line in
    let st := call st (addData (c_str fixed)) in
    Returns {| warningIssued :=
                 warningIssued st
                 || negb (forallb valid (map toupper (cut_at "010" line)));
               inAContig := inAContig st;
               contigLength := i64_add (contigLength st) lineLen;
               lastContigName := lastContigName st;
               calls := calls st |}.

Fixpoint readLines (st : Reader) (lines : list (list byte))
    : Outcome Reader :=
  match lines with
  | [] => Returns st
  | lineBuffer :: rest =>
      match readLine st lineBuffer with
      | Returns st' => readLines st' rest
      | SoftExit code => SoftExit code
      end
  end.

(** [ReadFASTAGenome]. [file] is [None] when [fopen] fails and
    otherwise the lines that [reallocatingFgets] yields, in order.
    The answer is [None] for a NULL return and otherwise the calls
    made on the genome that is returned. *)
Definition ReadFASTAGenome (file : option (list (list byte)))
    : Outcome (option (list GenomeCall)) :=
  match file with
  | None => Returns None
  | Some lines =>
      match readLines {| warningIssued := false;
                         inAContig := false;
                         contigLength := 0;
                         lastContigName := [];
                         calls := [] |} lines with
      | SoftExit code => SoftExit code
      | Returns st =>
          if negb (inAContig st) then Returns None
          else
            let st :=
              call st (MarkALTContigIfAppropriate (lastContigName st)
                                                  (contigLength st)) in
            let st := call st (addData (c_str paddingBuffer)) in
            let st := call st fillInContigLengths in
            let st := call st sortContigsByName in
            Returns (Some (calls st))
      end
  end.

End ReadFASTAGenome.

(** The bases of the genome: what the [addData] calls have appended. *)
Fixpoint genomeBody (cs : list GenomeCall) : list byte :=
  match cs with
  | [] => []
  | addData data :: rest => data ++ genomeBody rest
  | _ :: rest => genomeBody rest
  end.

(** The five bases of the claim. *)
Definition isBase (c : byte) : bool :=
  Byte.eqb c "A" || Byte.eqb c "C" || Byte.eqb c "G"
  || Byte.eqb c "T" || Byte.eqb c "N".

(** "upper-cased and every character outside {A,C,G,T,N} replaced by
    'N'", in the claim's words. *)
Definition upperCasedAndMasked (s : list byte) : list byte :=
  map (fun c => if isBase (toupper c) then toupper c else "N") s.

(** What an [addData] call may carry: the padding, or a sequence line of
    the file, cut at its newline, upper-cased and masked. *)
Definition sanitized (chromosomePaddingSize : Z) (lines : list (list byte))
    (c : GenomeCall) : Prop :=
  match c with
  | addData data =>
      data = paddingBuffer chromosomePaddingSize \/
      exists lineBuffer,
        In lineBuffer lines /\
        Byte.eqb (first_char (c_str lineBuffer)) ">" = false /\
        data = upperCasedAndMasked (cut_at "010" (c_str lineBuffer))
  | _ => True
  end.

End FASTA.

(** ** Concrete values, for the lemmas that run the code *)

Module Samples.
Import Double AlignmentResult ScoreSet.

(** 0.5 and 0.25 as doubles. *)
Definition half : double := S754_finite false 4503599627370496 (-53).
Definition quarter : double := S754_finite false 4503599627370496 (-54).

(** A score set whose best candidate has affine-gap score 90 and match
    probability 0.5. *)
Definition scores : ScoreSet :=
  {| bestScore := 2;
     bestScoreGenomeLocation := 1000;
     bestScoreOrigGenomeLocation := 1000;
     bestScoreDirection := FORWARD;
     bestScoreUsedAffineGapScoring := true;
     bestScoreBasesClippedBefore := 0;
     bestScoreBasesClippedAfter := 0;
     bestScoreAGScore := 90;
     bestScoreSeedOffset := 16;
     bestScoreMatchProbability := half;
     probabilityOfAllCandidates := half;
     probabilityOfBestCandidate := half |}.

(** A candidate at location 1010 of a contig. *)
Definition candidate (ag : Z) (p : double) : SingleAlignmentResult :=
  {| status := SingleHit;
     mapq := 60;
     location := 1010;
     origLocation := 1008;
     direction := RC;
     score := 3;
     scorePriorToClipping := 3;
     agScore := ag;
     matchProbability := p;
     usedAffineGapScoring := true;
     basesClippedBefore := 1;
     basesClippedAfter := 2;
     seedOffset := 32;
     clippingForReadAdjustment := 0;
     supplementary := false;
     alignmentTimeInNanoseconds := 0 |}.

(** A genome of two contigs of 1100 locations each, the last 100 of each
    being padding: the first starts at 100, the second at 1200. *)
Definition twoContigs : Genome.Genome :=
  {| Genome.contig := fun i =>
       {| Genome.beginningLocation := 100 + 1100 * Z.of_nat i;
          Genome.length := 1100 |};
     Genome.getContigAtLocation := fun loc =>
       if (100 <=? loc) && (loc <? 1200) then Some 0%nat
       else if (1200 <=? loc) && (loc <? 2300) then Some 1%nat
       else None;
     Genome.getChromosomePadding := 100 |}.

Definition aRead : SimpleReadWriter.Read :=
  {| SimpleReadWriter.getDataLength := 100;
     SimpleReadWriter.additionalFrontClipping := 0;
     SimpleReadWriter.additionalBackClipping := 0 |}.

(** The loop variables for [candidate] after [writeRead] has asked for
    an adjustment by [afc]. *)
Definition attempt (afc : Z) : SimpleReadWriter.Attempt :=
  {| SimpleReadWriter.result := candidate 80 half;
     SimpleReadWriter.finalLocation := 1010;
     SimpleReadWriter.read := aRead;
     SimpleReadWriter.addFrontClipping := afc;
     SimpleReadWriter.cumulativeAddFrontClipping := 0;
     SimpleReadWriter.nAdjustments := 0;
     SimpleReadWriter.blewBuffer := false |}.

(** A formatter that asks every located result for an adjustment by
    [afc] and writes a result that is not located. *)
Definition refusesLocated (afc : Z)
    (rd : SimpleReadWriter.Read) (r : SingleAlignmentResult)
    (finalLoc afcIn : Z) : bool * Z :=
  if AlignmentResult_eqb (status r) NotFound then (true, afcIn)
  else (false, afc).

(** A FASTA file of two contigs, with lower-case bases, letters that
    are no bases, a carriage return, an empty line and a NUL. *)
Definition fasta : list (list byte) :=
  [[">"; "c"; "h"; "r"; "1"; " "; "x"; "010"];
   ["a"; "c"; "g"; "t"; "n"; "x"; "R"; "013"; "010"];
   ["010"];
   [">"; "b"; "010"];
   ["A"; "000"; "C"]]%byte.

Definition watchdog (last writes : Z) : SimpleReadWriter.Watchdog :=
  {| SimpleReadWriter.killIfTooSlow := true;
     SimpleReadWriter.lastTooSlowCheck := last;
     SimpleReadWriter.writesSinceLastTooSlowCheck := writes |}.

End Samples.

(** ** Runs of updateBestScore *)

Module ScoreSetRuns.
Import Double AlignmentResult ScoreSet.

(** [updateBestScore] called on each result of a list in turn: the score
    set after the last call. *)
Fixpoint updateBestScores (s : ScoreSet) (results : list SingleAlignmentResult)
    : ScoreSet :=
  match results with
  | [] => s
  | result :: rest => updateBestScores (snd (updateBestScore s result)) rest
  end.

End ScoreSetRuns.

(** ** ReadWriter.cpp: the rest of writeReads, and writePairs *)

Module WriteReadsPass.
Import Int AlignmentResult SimpleReadWriter.

Definition setLocation (r : SingleAlignmentResult) (loc : Z)
    : SingleAlignmentResult :=
  {| status := status r;
     mapq := mapq r;
     location := loc;
     origLocation := origLocation r;
     direction := direction r;
     score := score r;
     scorePriorToClipping := scorePriorToClipping r;
     agScore := agScore r;
     matchProbability := matchProbability r;
     usedAffineGapScoring := usedAffineGapScoring r;
     basesClippedBefore := basesClippedBefore r;
     basesClippedAfter := basesClippedAfter r;
     seedOffset := seedOffset r;
     clippingForReadAdjustment := clippingForReadAdjustment r;
     supplementary := supplementary r;
     alignmentTimeInNanoseconds := alignmentTimeInNanoseconds r |}.

(** The first loop of [writeReads], for one result:
    [if (results[i].status == NotFound) results[i].location = InvalidGenomeLocation]. *)
Definition clearNotFound (InvalidGenomeLocation : Z)
    (r : SingleAlignmentResult) : SingleAlignmentResult :=
  if AlignmentResult_eqb (status r) NotFound
  then setLocation r InvalidGenomeLocation
  else r.

(** What holds of the loop variables all along, for the result [r0] the
    loop over one result started with. *)
Definition formatted (InvalidGenomeLocation : Z)
    (r0 : SingleAlignmentResult) (a : Attempt) : Prop :=
  (result a = r0 \/ result a = giveUp InvalidGenomeLocation r0) /\
  (status (result a) = NotFound ->
   location (result a) = InvalidGenomeLocation /\
   finalLocation a = InvalidGenomeLocation).

End WriteReadsPass.

Module WritePairs.
Import Int AlignmentResult SimpleReadWriter.

(** [s[i]] for a string of [getIdLength()] characters; NUL outside. *)
Definition charAt (s : list byte) (i : Z) : byte :=
  match s !! Z.to_nat i with
  | Some c => if 0 <=? i then c else "000"%byte
  | None => "000"%byte
  end.

(** The lengths of the two read names that [writePairs] hands to the
    formatter: both shortened by 2 when the names end in /1 and /2. *)
Definition pairIdLengths (id0 id1 : list byte) : Z * Z :=
  let l0 := Z.of_nat (length id0) in
  let l1 := Z.of_nat (length id1) in
  if (l0 =? l1) && (l0 >? 2)
     && Byte.eqb (charAt id0 (l0 - 2)) "/"
     && Byte.eqb (charAt id1 (l0 - 2)) "/"
  then
    let lastChar0 := charAt id0 (l0 - 1) in
    let lastChar1 := charAt id1 (l1 - 1) in
    if (Byte.eqb lastChar0 "1" || Byte.eqb lastChar0 "2")
       && (Byte.eqb lastChar1 "1" || Byte.eqb lastChar1 "2")
       && negb (Byte.eqb lastChar0 lastChar1)
    then (l0 - 2, l1 - 2)
    else (l0, l1)
  else (l0, l1).

(** The names end in /1 and /2, one each, after stems of one length that
    is not zero. *)
Definition slashOneSlashTwo (id0 id1 : list byte) : Prop :=
  exists stem0 stem1 c0 c1,
    id0 = stem0 ++ ["/"; c0]%byte /\ id1 = stem1 ++ ["/"; c1]%byte /\
    length stem0 = length stem1 /\ stem0 <> [] /\
    ((c0 = "1"%byte /\ c1 = "2"%byte) \/ (c0 = "2"%byte /\ c1 = "1"%byte)).

(** [writeOrder[0]] and [writeOrder[1]]: the reads in the order of their
    locations, read 0 first on a tie. *)
Definition writeOrder (location0 location1 : Z) : Z * Z :=
  if location0 <=? location1 then (0, 1) else (1, 0).

(** The commit of a pair: [writeFirstOrSecond], and the location handed
    to [writer->advance] for the record [firstOrSecond]. *)
Definition writeFirstOrSecond (firstOrSecond : Z) (final0 final1 : Z) : Z :=
  Z.lxor (if firstOrSecond =? 0 then 0 else 1)
         (if final0 >? final1 then 1 else 0).

Definition commitLocation (InvalidGenomeLocation : Z) (firstOrSecond : Z)
    (final0 final1 : Z) : Z :=
  let w := writeFirstOrSecond firstOrSecond final0 final1 in
  let final := fun i : Z => if i =? 0 then final0 else final1 in
  if final w =? InvalidGenomeLocation then final (1 - w) else final w.

(** The variables of the loop over one single alignment of a read of the
    pair. The location lives in the local [location]; the result keeps its
    own. *)
Record PairAttempt : Type := {
  presult : SingleAlignmentResult;    (* singleResults[whichRead][whichAlignment] *)
  plocation : Z;                      (* location *)
  pread : Read;
  paddFrontClipping : Z;
  pcumulative : Z                     (* cumulativePositiveAddFrontClipping *)
}.

Section SingleOfPair.

Variable genome : Genome.Genome.
Variable InvalidGenomeLocation : Z.

(** The start of the loop body for one single alignment. *)
Definition startSingle (rd : Read) (first r : SingleAlignmentResult)
    (afc : Z) : PairAttempt :=
  {| presult := r;
     plocation :=
       if AlignmentResult_eqb (status r) NotFound
       then InvalidGenomeLocation else location r;
     pread := setAdditionalFrontClipping rd (clippingForReadAdjustment first);
     paddFrontClipping := afc;
     pcumulative := 0 |}.

(** The test of both loops of [writePairs]: the contigs are looked up at
    the local [location], whatever the status. *)
Definition mustGiveUpPair (a : PairAttempt) : bool :=
  let originalContig := Genome.getContigAtLocation genome (plocation a) in
  let newContig :=
    Genome.getContigAtLocation genome
      (i64_add (plocation a) (paddFrontClipping a)) in
  negb (Genome.ContigPtr_eqb newContig originalContig)
  || match newContig, originalContig with
     | Some _, Some oc =>
         i64_add (plocation a) (paddFrontClipping a) >? lastLocation genome oc
     | _, _ => true
     end.

Definition giveUpPair (r : SingleAlignmentResult) : SingleAlignmentResult :=
  {| status := NotFound;
     mapq := mapq r;
     location := location r;
     origLocation := origLocation r;
     direction := FORWARD;
     score := -1;
     scorePriorToClipping := scorePriorToClipping r;
     agScore := agScore r;
     matchProbability := matchProbability r;
     usedAffineGapScoring := usedAffineGapScoring r;
     basesClippedBefore := basesClippedBefore r;
     basesClippedAfter := basesClippedAfter r;
     seedOffset := seedOffset r;
     clippingForReadAdjustment := clippingForReadAdjustment r;
     supplementary := supplementary r;
     alignmentTimeInNanoseconds := alignmentTimeInNanoseconds r |}.

Definition dropPair (a : PairAttempt) : PairAttempt :=
  {| presult := giveUpPair (presult a);
     plocation := InvalidGenomeLocation;
     pread := pread a;
     paddFrontClipping := paddFrontClipping a;
     pcumulative := pcumulative a |}.

(** The affine-gap loop body after the test of [addFrontClipping]. *)
Definition redoPairAG (a : PairAttempt) : PairAttempt :=
  if mustGiveUpPair a then dropPair a
  else if paddFrontClipping a <? 0 then
    let cum := i32_add (pcumulative a) (paddFrontClipping a) in
    {| presult := presult a;
       plocation := plocation a;
       pread :=
         if Direction_eqb (direction (presult a)) FORWARD
         then setAdditionalFrontClipping (pread a) (i32_neg cum)
         else setAdditionalBackClipping (pread a) (i32_neg cum);
       paddFrontClipping := paddFrontClipping a;
       pcumulative := cum |}
  else
    {| presult := presult a;
       plocation := i64_add (plocation a) (paddFrontClipping a);
       pread := pread a;
       paddFrontClipping := paddFrontClipping a;
       pcumulative := pcumulative a |}.

(** The edit-distance loop body after the test of [addFrontClipping]. *)
Definition redoPairLV (a : PairAttempt) : PairAttempt :=
  if mustGiveUpPair a then dropPair a
  else
    let cum :=
      if paddFrontClipping a >? 0
      then i32_add (pcumulative a) (paddFrontClipping a)
      else pcumulative a in
    {| presult := presult a;
       plocation := i64_add (plocation a) (paddFrontClipping a);
       pread :=
         if paddFrontClipping a >? 0
         then setAdditionalFrontClipping (pread a) cum
         else pread a;
       paddFrontClipping := paddFrontClipping a;
       pcumulative := cum |}.

(** One turn of a loop body, entered when [writeRead] has answered false:
    [None] is the jump to [blownBuffer]. *)
Definition adjustPair (redo : PairAttempt -> PairAttempt) (a : PairAttempt)
    : option PairAttempt :=
  if paddFrontClipping a =? 0 then None else Some (redo a).

(** The adjustment would cross a contig boundary, as [writePairs] sees
    it from the local [location]. *)
Definition crossesFromLocation (loc afc : Z) : Prop :=
  match Genome.getContigAtLocation genome (i64_add loc afc) with
  | None => True
  | Some nc =>
      Genome.getContigAtLocation genome loc <> Some nc \/
      i64_add loc afc > lastLocation genome nc
  end.

End SingleOfPair.
End WritePairs.

(** ** ReadWriter.cpp: the watchdog over many calls, and writeHeader *)

Module WatchdogRuns.
Import Int SimpleReadWriter.

(** [checkIfTooSlow] at each of the times of a list, in order, as
    [writeReads] and [writePairs] call it once each; the run stops at the
    first call that ends the process. *)
Fixpoint checkIfTooSlowAt (times : list Z) (w : Watchdog) : Outcome Watchdog :=
  match times with
  | [] => Returns w
  | now :: later =>
      match checkIfTooSlow now w with
      | Returns w' => checkIfTooSlowAt later w'
      | SoftExit code => SoftExit code
      end
  end.

End WatchdogRuns.

Module WriteHeader.
Import Int.

Section WriteHeader.

(** [format->writeHeader] for a buffer of [size] bytes: [None] when the
    header does not fit, otherwise the bytes it has put in the buffer
    ([used] is their number). *)
Variable formatHeader : Z -> option (list byte).

(** The k-th call of [writer->getBuffer] after the first: [None] when it
    fails, otherwise the size of the buffer. *)
Variable getBuffer : nat -> option Z.

(** The first loop: the size that the header fitted in, whether a local
    buffer had to be made, and the header; at most [fuel] calls of the
    formatter. *)
Fixpoint fitHeader (fuel : nat) (size : Z) (isLocal : bool)
    : option (Z * bool * list byte) :=
  match fuel with
  | O => None
  | S fuel' =>
      match formatHeader size with
      | Some header => Some (size, isLocal, header)
      | None => fitHeader fuel' (to_u64 (2 * size)) true
      end
  end.

(** [__min] on sizes. *)
Definition min_size (a b : Z) : Z := if a <? b then a else b.

(** The second loop, which hands the header to the writer piece by piece.
    [rest] holds the bytes from [localBuffer + bytesWritten] on (so its
    length is [bytesRemainingToWrite]), [writerBufferSize] is the size of
    the writer's buffer at hand, [k] counts the calls of [getBuffer],
    [pieces] are the pieces advanced so far, oldest first.  The answer is
    whether the loop ended normally ([false]: [getBuffer] failed) and the
    pieces; [None] when the fuel does not suffice. *)
Fixpoint copyHeader (fuel : nat) (rest : list byte) (writerBufferSize : Z)
    (k : nat) (pieces : list (list byte)) : option (bool * list (list byte)) :=
  match fuel with
  | O => None
  | S fuel' =>
      if Z.of_nat (length rest) >? 0 then
        let bytesToWrite := min_size (Z.of_nat (length rest)) writerBufferSize in
        let piece := take (Z.to_nat bytesToWrite) rest in
        match getBuffer k with
        | None => Some (false, pieces ++ [piece])
        | Some size' =>
            copyHeader fuel' (drop (Z.to_nat bytesToWrite) rest) size'
                       (S k) (pieces ++ [piece])
        end
      else Some (true, pieces)
  end.

(** [writeHeader]: [firstBuffer] is what the first [getBuffer] answers.
    The pieces are what has been advanced to the writer. *)
Definition writeHeader (fuel : nat) (firstBuffer : option Z)
    : option (bool * list (list byte)) :=
  match firstBuffer with
  | None => Some (false, [])
  | Some size =>
      match fitHeader fuel size false with
      | None => None
      | Some (_, false, header) =>
          (* writer->advance((unsigned)used, 0) *)
          Some (true,
                [take (Z.to_nat (to_u32 (Z.of_nat (length header)))) header])
      | Some (_, true, header) => copyHeader fuel header size 0 []
      end
  end.

End WriteHeader.
End WriteHeader.

(** ** FASTA.cpp: the first pass, the ALT marking, AppendFASTAGenome *)

Module FastaFile.
Import Int FASTA.
Local Open Scope byte_scope.

(** The first [while] loop of [ReadFASTAGenome], from a count of
    [nChromosomes] on; the counter is an [unsigned]. *)
Fixpoint countChromosomesFrom (nChromosomes : Z) (lines : list (list byte))
    : Z :=
  match lines with
  | [] => nChromosomes
  | lineBuffer :: rest =>
      countChromosomesFrom
        (if Byte.eqb (first_char (c_str lineBuffer)) ">"
         then u32_add nChromosomes 1 else nChromosomes)
        rest
  end.

Definition countChromosomes (lines : list (list byte)) : Z :=
  countChromosomesFrom 0 lines.

(** The number of bases the [Genome] is created for:
    [fileSize + (nChromosomes+1) * (size_t)chromosomePaddingSize]. *)
Definition genomeCapacity (fileSize nChromosomes chromosomePaddingSize : Z) : Z :=
  to_u64 (fileSize
          + to_u64 (u32_add nChromosomes 1 * to_u64 chromosomePaddingSize)).

(** The bytes that [reallocatingFgets] has read in all. *)
Fixpoint bytesRead (lines : list (list byte)) : Z :=
  match lines with
  | [] => 0
  | lineBuffer :: rest => Z.of_nat (length lineBuffer) + bytesRead rest
  end.

Fixpoint countStartContig (cs : list GenomeCall) : Z :=
  match cs with
  | [] => 0
  | startContig _ :: rest => 1 + countStartContig rest
  | _ :: rest => countStartContig rest
  end.

Fixpoint countMarkALT (cs : list GenomeCall) : Z :=
  match cs with
  | [] => 0
  | MarkALTContigIfAppropriate _ _ :: rest => 1 + countMarkALT rest
  | _ :: rest => countMarkALT rest
  end.

(** The contigs started, the contigs closed (the one being read counts
    as closed: its call comes with the next name or at the end) and the
    bases appended, as numbers. *)
Definition started (st : Reader) : Z := countStartContig (calls st).
Definition closed (st : Reader) : Z :=
  countMarkALT (calls st) + (if inAContig st then 1 else 0).
Definition appended (st : Reader) : Z :=
  Z.of_nat (length (genomeBody (calls st))).

(** [tolower] of the C library in the "C" locale. *)
Definition tolower (c : byte) : byte :=
  let n := Byte.to_N c in
  if ((65 <=? n) && (n <=? 90))%N then
    match Byte.of_N (n + 32) with
    | Some l => l
    | None => c
    end
  else c.

Fixpoint bytes_eqb (a b : list byte) : bool :=
  match a, b with
  | [], [] => true
  | x :: a', y :: b' => Byte.eqb x y && bytes_eqb a' b'
  | _, _ => false
  end.

(** [!stricmp(a, b)]: the two C strings are the same but for the case of
    letters. *)
Definition sameIgnoringCase (a b : list byte) : bool :=
  bytes_eqb (map tolower (c_str a)) (map tolower (c_str b)).

(** Some [names + i] with [i < count] is the contig name: the test of
    both loops of [MarkALTContigIfAppropriate]. *)
Definition namedAt (names : list byte) (count : nat) (contigName : list byte)
    : bool :=
  existsb (fun i => sameIgnoringCase (drop i names) contigName) (seq 0 count).

(** [MarkALTContigIfAppropriate]: whether it calls [genome->markContigALT]. *)
Definition MarkALTContigIfAppropriate (contigName : list byte) (contigSize : Z)
    (opt_in_alt_names : list byte) (opt_in_alt_names_count : nat)
    (opt_out_alt_names : list byte) (opt_out_alt_names_count : nat)
    (maxSizeForAutomaticALT : Z) : bool :=
  if namedAt opt_out_alt_names opt_out_alt_names_count contigName then false
  else if contigSize <=? maxSizeForAutomaticALT then true
  else namedAt opt_in_alt_names opt_in_alt_names_count contigName.

(** [AppendFASTAGenome]: for each contig, its start and the number of
    bytes written for it, from the [beginningLocation]s of the contigs in
    the order of [getContigs()] and from [getCountOfBases()]. *)
Fixpoint contigExtents (beginnings : list Z) (countOfBases : Z)
    : list (Z * Z) :=
  match beginnings with
  | [] => []
  | start :: rest =>
      let finish :=
        match rest with
        | next :: _ => next
        | [] => countOfBases
        end in
      (start, i64_sub finish start) :: contigExtents rest countOfBases
  end.

(** The bytes [AppendFASTAGenome] writes as bases, all contigs together. *)
Fixpoint totalSize (extents : list (Z * Z)) : Z :=
  match extents with
  | [] => 0
  | (_, size) :: rest => size + totalSize rest
  end.

(** What a [startContig] call may carry: the name cut out of a line of the
    file that starts with '>'. *)
Definition named (pieceNameTerminatorCharacters : option (list byte))
    (spaceIsAPieceNameTerminator : bool) (lines : list (list byte))
    (c : GenomeCall) : Prop :=
  match c with
  | startContig name =>
      exists lineBuffer,
        In lineBuffer lines /\
        Byte.eqb (first_char (c_str lineBuffer)) ">" = true /\
        name = contigName pieceNameTerminatorCharacters
                          spaceIsAPieceNameTerminator (c_str lineBuffer)
  | _ => True
  end.

End FastaFile.

(** ** Concrete values for the further properties *)

Module MoreSamples.
Local Open Scope byte_scope.

(** A header of five bytes, which fits in every buffer of five bytes or
    more. *)
Definition header : list byte := ["@"; "H"; "D"; "009"; "010"].

Definition formatHeader (size : Z) : option (list byte) :=
  if (5 <=? size)%Z then Some header else None.

(** A writer whose buffers all hold two bytes. *)
Definition getBuffer (k : nat) : option Z := Some 2%Z.

(** A writer whose buffers hold two bytes, and which has none left at the
    fourth call. *)
Definition getBufferThrice (k : nat) : option Z :=
  if (k <? 2)%nat then Some 2%Z else None.

End MoreSamples.

(** ** Concrete values for an adjustment made in two steps *)

Module BoundarySamples.
Import AlignmentResult SimpleReadWriter.

(** The candidate of [Samples], located at [loc]. *)
Definition candidateAt (loc : Z) : SingleAlignmentResult :=
  WriteReadsPass.setLocation (Samples.candidate 80 Samples.half) loc.

(** A formatter that writes a result that is not located, and asks a
    located one for an adjustment by [afc] as long as the location it
    is handed is [bound] or more. *)
Definition refusesFrom (bound afc : Z)
    (rd : Read) (r : SingleAlignmentResult) (finalLoc afcIn : Z)
    : bool * Z :=
  if AlignmentResult_eqb (status r) NotFound || (finalLoc <? bound)
  then (true, afcIn)
  else (false, afc).

(** The loop variables of [writeReads] for the candidate at [loc], once
    it was moved to [finalLoc] by a first adjustment and [writeRead]
    has asked for an adjustment by [afc] again. *)
Definition secondTurn (loc finalLoc afc : Z) : Attempt :=
  {| result := candidateAt loc;
     finalLocation := finalLoc;
     read := Samples.aRead;
     addFrontClipping := afc;
     cumulativeAddFrontClipping := 0;
     nAdjustments := 1;
     blewBuffer := false |}.

(** The variables of the loop of [writePairs] over a single alignment
    at the same point. *)
Definition secondTurnOfPair (loc finalLoc afc : Z) : WritePairs.PairAttempt :=
  {| WritePairs.presult := candidateAt loc;
     WritePairs.plocation := finalLoc;
     WritePairs.pread := Samples.aRead;
     WritePairs.paddFrontClipping := afc;
     WritePairs.pcumulative := 0 |}.

End BoundarySamples.

(* ===================================================================== *)
(** * Part II.  Properties                                                *)
(* ===================================================================== *)

(** ** Fixed-width conversions *)

Section IntFacts.
Import Int.

Lemma to_u64_range (z : Z) : 0 <= to_u64 z < 2 ^ 64.
Proof. unfold to_u64. apply Z.mod_pos_bound. lia. Qed.

Lemma to_u64_id (z : Z) : 0 <= z < 2 ^ 64 -> to_u64 z = z.
Proof. intros H. unfold to_u64. apply Z.mod_small. exact H. Qed.

Lemma to_i64_id (z : Z) : - 2 ^ 63 <= z < 2 ^ 63 -> to_i64 z = z.
Proof.
  intros H. unfold to_i64. rewrite Z.mod_small; lia.
Qed.

Lemma to_u8_testbit (z n : Z) :
  0 <= n < 8 -> Z.testbit (to_u8 z) n = Z.testbit z n.
Proof.
  intros H. unfold to_u8. apply Z.mod_pow2_bits_low. lia.
Qed.

End IntFacts.

(** ** The candidate store: hash, window size, decomposition *)

Section CandidateStore.
Import Int BaseAligner.

(** The multiplier is invertible modulo [2 ^ 64], so [hash] loses
    nothing: it is one-to-one on 64-bit keys. *)
Lemma hash_injective (a b : Z) :
  0 <= a < 2 ^ 64 -> 0 <= b < 2 ^ 64 -> hash a = hash b -> a = b.
Proof.
  intros Ha Hb Heq.
  unfold hash, u64_mul, to_u64 in Heq.
  assert (Hinv : forall x, 0 <= x < 2 ^ 64 ->
            ((x * 131) mod 2 ^ 64 * 281629680514649643) mod 2 ^ 64 = x).
  { intros x Hx.
    rewrite Z.mul_mod_idemp_l by lia.
    replace (x * 131 * 281629680514649643)
      with (x + x * 2 * 2 ^ 64) by lia.
    rewrite Z.mod_add by lia.
    apply Z.mod_small. exact Hx. }
  rewrite <- (Hinv a Ha), <- (Hinv b Hb), Heq. reflexivity.
Qed.

(** C7.  For every 64-bit key, [hash key] is the key times the small odd
    constant 131, reduced modulo 2^64, and nothing more: the result is
    again a 64-bit value, and it is that product whatever the key. *)
Theorem hash_is_key_times_131 (key : Z) :
  hash key = (key * 131) mod 2 ^ 64 /\
  Z.odd 131 = true /\
  0 <= hash key < 2 ^ 64.
Proof.
  split; [reflexivity | split; [reflexivity |]].
  apply to_u64_range.
Qed.

Lemma not_isPowerOfTwo_48 : ~ isPowerOfTwo 48.
Proof.
  intros [k [Hk H48]].
  destruct (Z_lt_le_dec k 6) as [Hlt | Hge].
  - assert (Hcases : k = 0 \/ k = 1 \/ k = 2 \/ k = 3 \/ k = 4 \/ k = 5) by lia.
    destruct Hcases as [-> | [-> | [-> | [-> | [-> | ->]]]]]; discriminate H48.
  - assert (H64 : 2 ^ 6 <= 2 ^ k) by (apply Z.pow_le_mono_r; lia).
    change (2 ^ 6) with 64 in H64. lia.
Qed.

(** The high-order part is the location rounded down to a multiple of
    the window size. *)
Lemma decompose_high (LR : bool) (R : Z) :
  0 <= R < 2 ^ 63 ->
  fst (decomposeGenomeLocation LR R true)
  = Some (hashTableElementSize LR * (R / hashTableElementSize LR)).
Proof.
  intros HR.
  assert (HW : 0 < hashTableElementSize LR) by (destruct LR; reflexivity).
  unfold decomposeGenomeLocation, GenomeLocationAsInt64, u64_sub. cbn [fst].
  rewrite (to_u64_id R) by lia.
  pose proof (Z.mod_pos_bound R _ HW) as Hlow.
  pose proof (Z.mod_le R _ ltac:(lia) HW) as Hle.
  pose proof (Z.div_mod R (hashTableElementSize LR) ltac:(lia)) as Hdm.
  rewrite to_u64_id by lia.
  f_equal. lia.
Qed.

Lemma clearLowBits_6 (R : Z) : clearLowBits 6 R = 64 * (R / 64).
Proof.
  unfold clearLowBits.
  rewrite Z.shiftl_mul_pow2, Z.shiftr_div_pow2 by lia.
  change (2 ^ 6) with 64. lia.
Qed.

(** C3, as the spec words it, fails for short reads: 48 is no power of
    two, and the base location of 48 is 48, which is neither 48 with its
    low five bits cleared (32) nor with its low six bits cleared (0). *)
Lemma window_as_specified_fails_for_short_reads :
  hashTableElementSize false = 48 /\
  ~ isPowerOfTwo (hashTableElementSize false) /\
  fst (decomposeGenomeLocation false 48 true) = Some 48 /\
  clearLowBits (Z.log2 48) 48 = 32 /\
  clearLowBits (Z.log2_up 48) 48 = 0 /\
  ~ windowAsSpecified false.
Proof.
  split; [reflexivity |].
  split; [exact not_isPowerOfTwo_48 |].
  split; [reflexivity |].
  split; [reflexivity |].
  split; [reflexivity |].
  intros (_ & _ & _ & Hpow & _). exact (not_isPowerOfTwo_48 Hpow).
Qed.

(** C3, amended.  The window size is 48 for short reads and 64 for long
    reads, is even and at most 64; it is a power of two for long reads
    only.  An element's base location is the genome location rounded
    down to a multiple of the window size, which for long reads is the
    location with its low six bits cleared. *)
Theorem window_size_and_base_location (LONG_READS : bool) :
  let W := hashTableElementSize LONG_READS in
  W = maxMergeDist LONG_READS /\
  W = (if LONG_READS then 64 else 48) /\
  Z.even W = true /\
  W <= 64 /\
  (isPowerOfTwo W <-> LONG_READS = true) /\
  forall R : GenomeLocation, 0 <= R < 2 ^ 63 ->
    fst (decomposeGenomeLocation LONG_READS R true) = Some (W * (R / W)) /\
    (LONG_READS = true ->
     fst (decomposeGenomeLocation LONG_READS R true)
     = Some (clearLowBits 6 R)).
Proof.
  cbv zeta.
  split; [reflexivity |].
  split; [destruct LONG_READS; reflexivity |].
  split; [destruct LONG_READS; reflexivity |].
  split; [destruct LONG_READS; cbn; lia |].
  split.
  - destruct LONG_READS; cbn; split; intros H.
    + reflexivity.
    + exists 6. split; [lia | reflexivity].
    + exfalso. exact (not_isPowerOfTwo_48 H).
    + discriminate H.
  - intros R HR. split.
    + apply decompose_high. exact HR.
    + intros ->. rewrite clearLowBits_6. apply (decompose_high true). exact HR.
Qed.

Lemma window_size_and_base_location_witness :
  0 <= 1000 < 2 ^ 63 /\
  fst (decomposeGenomeLocation true 1000 true) = Some (64 * (1000 / 64)) /\
  fst (decomposeGenomeLocation false 1000 true) = Some (48 * (1000 / 48)).
Proof.
  assert (H1000 : 0 <= 1000 < 2 ^ 63) by lia.
  split; [exact H1000 |]. split.
  - destruct (window_size_and_base_location true) as (_ & _ & _ & _ & _ & H).
    exact (proj1 (H 1000 H1000)).
  - destruct (window_size_and_base_location false) as (_ & _ & _ & _ & _ & H).
    exact (proj1 (H 1000 H1000)).
Defined.

(** C4.  For every genome location [R] (an offset into the genome, so not
    negative), [decomposeGenomeLocation] gives [lowOrder = R mod W] and
    [highOrder = R - lowOrder], so that [highOrder + lowOrder = R] and
    [0 <= lowOrder < W], where [W] is [hashTableElementSize]. *)
Theorem decomposeGenomeLocation_law (LONG_READS : bool) (R : GenomeLocation) :
  0 <= R < 2 ^ 63 ->
  exists highOrder lowOrder,
    decomposeGenomeLocation LONG_READS R true = (Some highOrder, lowOrder) /\
    lowOrder = R mod hashTableElementSize LONG_READS /\
    highOrder = R - lowOrder /\
    highOrder + lowOrder = R /\
    0 <= lowOrder < hashTableElementSize LONG_READS.
Proof.
  intros HR.
  assert (HW : 0 < hashTableElementSize LONG_READS)
    by (destruct LONG_READS; reflexivity).
  pose proof (Z.mod_pos_bound R _ HW) as Hlow.
  pose proof (Z.mod_le R _ ltac:(lia) HW) as Hle.
  exists (R - R mod hashTableElementSize LONG_READS),
         (R mod hashTableElementSize LONG_READS).
  split.
  - unfold decomposeGenomeLocation, GenomeLocationAsInt64, u64_sub.
    rewrite (to_u64_id R) by lia.
    rewrite to_u64_id by lia. reflexivity.
  - repeat split; lia.
Qed.

Lemma decomposeGenomeLocation_law_witness :
  exists highOrder lowOrder,
    decomposeGenomeLocation false 1000 true = (Some highOrder, lowOrder) /\
    lowOrder = 1000 mod hashTableElementSize false /\
    highOrder = 1000 - lowOrder /\
    highOrder + lowOrder = 1000 /\
    0 <= lowOrder < hashTableElementSize false.
Proof.
  apply (decomposeGenomeLocation_law false 1000). lia.
Defined.

(** The low-order part is written as well when no high-order part is
    asked for, and is the same. *)
Lemma decomposeGenomeLocation_low_only (LR : bool) (R : Z) :
  decomposeGenomeLocation LR R false
  = (None, snd (decomposeGenomeLocation LR R true)).
Proof. reflexivity. Qed.

(** Outside the claim's domain: a negative location is read as an
    unsigned number first, and for the window of 48 the remainder is
    then not that of the location itself. *)
Lemma decomposeGenomeLocation_negative :
  snd (decomposeGenomeLocation false (-1) true) = 15 /\ (-1) mod 48 = 47.
Proof. split; reflexivity. Qed.

End CandidateStore.

(** ** The seedUsed bit vector *)

Section SeedUsed.
Import Int BaseAligner.

Lemma land_bit_nonzero (b k : Z) :
  0 <= k -> negb (Z.land b (Z.shiftl 1 k) =? 0) = Z.testbit b k.
Proof.
  intros Hk.
  rewrite Z.shiftl_1_l.
  destruct (Z.testbit b k) eqn:Hb.
  - apply negb_true_iff, Z.eqb_neq. intros H0.
    assert (Hbit : Z.testbit (Z.land b (2 ^ k)) k = true).
    { rewrite Z.land_spec, Hb, Z.pow2_bits_true by lia. reflexivity. }
    rewrite H0, Z.bits_0 in Hbit. discriminate Hbit.
  - apply negb_false_iff, Z.eqb_eq.
    apply Z.bits_inj'. intros n Hn.
    rewrite Z.land_spec, Z.bits_0.
    destruct (Z.eq_dec n k) as [-> | Hne].
    + rewrite Hb. reflexivity.
    + rewrite (Z.pow2_bits_false k n) by lia. apply andb_false_r.
Qed.

Lemma IsSeedUsed_testbit (seedUsed : list Z) (j : Z) :
  IsSeedUsed seedUsed j
  = match seedUsed !! Z.to_nat (j / 8) with
    | Some b => Some (Z.testbit b (j mod 8))
    | None => None
    end.
Proof.
  unfold IsSeedUsed. destruct (seedUsed !! Z.to_nat (j / 8)); [| reflexivity].
  rewrite land_bit_nonzero; [reflexivity |].
  apply Z.mod_pos_bound. lia.
Qed.

Lemma set_bit_testbit (b k n : Z) :
  0 <= k < 8 -> 0 <= n < 8 ->
  Z.testbit (to_u8 (Z.lor b (Z.shiftl 1 k))) n
  = Z.testbit b n || (n =? k).
Proof.
  intros Hk Hn.
  rewrite to_u8_testbit by lia.
  rewrite Z.lor_spec, Z.shiftl_1_l.
  destruct (Z.eqb_spec n k) as [-> | Hne].
  - rewrite Z.pow2_bits_true by lia. reflexivity.
  - rewrite (Z.pow2_bits_false k n) by lia. reflexivity.
Qed.

Lemma same_byte_same_bit (i j : Z) :
  0 <= i -> 0 <= j ->
  Z.to_nat (i / 8) = Z.to_nat (j / 8) -> i mod 8 = j mod 8 -> i = j.
Proof.
  intros Hi Hj Hq Hr.
  assert (Hqi : 0 <= i / 8) by (apply Z.div_pos; lia).
  assert (Hqj : 0 <= j / 8) by (apply Z.div_pos; lia).
  apply Z2Nat.inj in Hq; [| lia | lia].
  rewrite (Z.div_mod i 8), (Z.div_mod j 8) by lia. lia.
Qed.

Lemma in_range_lookup (seedUsed : list Z) (i : Z) :
  0 <= i < 8 * Z.of_nat (length seedUsed) ->
  exists b, seedUsed !! Z.to_nat (i / 8) = Some b.
Proof.
  intros Hi.
  assert (Hq : 0 <= i / 8 < Z.of_nat (length seedUsed)).
  { split; [apply Z.div_pos; lia | apply Z.div_lt_upper_bound; lia]. }
  destruct (lookup_lt_is_Some_2 seedUsed (Z.to_nat (i / 8))) as [b Hb];
    [lia | exists b; exact Hb].
Qed.

(** What a call of [SetSeedUsed] does to every bit. *)
Lemma SetSeedUsed_bits (seedUsed seedUsed' : list Z) (i j : Z) :
  0 <= i -> 0 <= j ->
  SetSeedUsed seedUsed i = Some seedUsed' ->
  length seedUsed' = length seedUsed /\
  IsSeedUsed seedUsed' j
  = if j =? i then Some true else IsSeedUsed seedUsed j.
Proof.
  intros Hi Hj Hset. unfold SetSeedUsed in Hset.
  destruct (seedUsed !! Z.to_nat (i / 8)) as [b |] eqn:Hb; [| discriminate].
  injection Hset as <-.
  split; [apply length_insert |].
  pose proof (lookup_lt_Some _ _ _ Hb) as Hlen.
  assert (Hki : 0 <= i mod 8 < 8) by (apply Z.mod_pos_bound; lia).
  assert (Hkj : 0 <= j mod 8 < 8) by (apply Z.mod_pos_bound; lia).
  rewrite !IsSeedUsed_testbit.
  destruct (Nat.eq_dec (Z.to_nat (i / 8)) (Z.to_nat (j / 8))) as [Heq | Hne].
  - rewrite <- Heq, list_lookup_insert_eq, Hb by exact Hlen.
    rewrite set_bit_testbit by assumption.
    destruct (Z.eqb_spec j i) as [-> | Hji].
    + rewrite Z.eqb_refl, orb_true_r. reflexivity.
    + destruct (Z.eqb_spec (j mod 8) (i mod 8)) as [Hr | Hr].
      * exfalso. apply Hji. symmetry.
        apply same_byte_same_bit; auto.
      * rewrite orb_false_r. reflexivity.
  - rewrite list_lookup_insert_ne by exact Hne.
    destruct (Z.eqb_spec j i) as [-> | Hji]; [congruence | reflexivity].
Qed.

(** A run of [SetSeedUsed] calls within the array goes through and
    keeps every bit that was set. *)
Lemma SetSeedsUsed_monotone (indices : list Z) :
  forall seedUsed : list Z,
    Forall (fun i => 0 <= i < 8 * Z.of_nat (length seedUsed)) indices ->
    exists after,
      SetSeedsUsed seedUsed indices = Some after /\
      length after = length seedUsed /\
      forall j, 0 <= j ->
        IsSeedUsed seedUsed j = Some true -> IsSeedUsed after j = Some true.
Proof.
  induction indices as [| i rest IH]; intros seedUsed Hall.
  - exists seedUsed. repeat split; auto.
  - apply Forall_cons in Hall as [Hi Hrest].
    destruct (in_range_lookup seedUsed i Hi) as [b Hb].
    assert (Hset : SetSeedUsed seedUsed i
                   = Some (<[Z.to_nat (i / 8) :=
                               to_u8 (Z.lor b (Z.shiftl 1 (i mod 8)))]> seedUsed)).
    { unfold SetSeedUsed. rewrite Hb. reflexivity. }
    set (next := <[Z.to_nat (i / 8) :=
                     to_u8 (Z.lor b (Z.shiftl 1 (i mod 8)))]> seedUsed) in *.
    assert (Hlen : length next = length seedUsed) by apply length_insert.
    destruct (IH next) as (after & Hrun & Hlen' & Hmono).
    { rewrite Hlen. exact Hrest. }
    exists after. cbn [SetSeedsUsed]. rewrite Hset.
    split; [exact Hrun |]. split; [congruence |].
    intros j Hj Hused. apply Hmono; [exact Hj |].
    destruct (SetSeedUsed_bits seedUsed next i j ltac:(lia) Hj Hset) as [_ ->].
    destruct (j =? i); [reflexivity | exact Hused].
Qed.

(** C9.  For an index [i] within the bit vector, [SetSeedUsed i] goes
    through and [IsSeedUsed i] is true after it; it leaves [IsSeedUsed j]
    as it was for every other [j]; and no run of [SetSeedUsed] calls
    within the bit vector clears a bit that was set. *)
Theorem seedUsed_set_then_used (seedUsed : list Z) (i : Z) :
  0 <= i < 8 * Z.of_nat (length seedUsed) ->
  exists seedUsed',
    SetSeedUsed seedUsed i = Some seedUsed' /\
    IsSeedUsed seedUsed' i = Some true /\
    (forall j, 0 <= j -> j <> i ->
       IsSeedUsed seedUsed' j = IsSeedUsed seedUsed j) /\
    (forall indices,
       Forall (fun k => 0 <= k < 8 * Z.of_nat (length seedUsed)) indices ->
       exists after,
         SetSeedsUsed seedUsed indices = Some after /\
         forall j, 0 <= j ->
           IsSeedUsed seedUsed j = Some true ->
           IsSeedUsed after j = Some true).
Proof.
  intros Hi.
  destruct (in_range_lookup seedUsed i Hi) as [b Hb].
  eexists. split.
  { unfold SetSeedUsed. rewrite Hb. reflexivity. }
  assert (Hset : SetSeedUsed seedUsed i
                 = Some (<[Z.to_nat (i / 8) :=
                             to_u8 (Z.lor b (Z.shiftl 1 (i mod 8)))]> seedUsed)).
  { unfold SetSeedUsed. rewrite Hb. reflexivity. }
  split; [| split].
  - destruct (SetSeedUsed_bits _ _ i i ltac:(lia) ltac:(lia) Hset) as [_ ->].
    rewrite Z.eqb_refl. reflexivity.
  - intros j Hj Hne.
    destruct (SetSeedUsed_bits _ _ i j ltac:(lia) Hj Hset) as [_ ->].
    destruct (Z.eqb_spec j i); [contradiction | reflexivity].
  - intros indices Hall.
    destruct (SetSeedsUsed_monotone indices seedUsed Hall)
      as (after & Hrun & _ & Hmono).
    exists after. split; assumption.
Qed.

Lemma seedUsed_set_then_used_witness :
  exists seedUsed',
    SetSeedUsed [0; 5] 9 = Some seedUsed' /\
    IsSeedUsed seedUsed' 9 = Some true /\
    (forall j, 0 <= j -> j <> 9 ->
       IsSeedUsed seedUsed' j = IsSeedUsed [0; 5] j) /\
    (forall indices,
       Forall (fun k => 0 <= k < 8 * Z.of_nat (length [0; 5])) indices ->
       exists after,
         SetSeedsUsed [0; 5] indices = Some after /\
         forall j, 0 <= j ->
           IsSeedUsed [0; 5] j = Some true ->
           IsSeedUsed after j = Some true).
Proof.
  apply (seedUsed_set_then_used [0; 5] 9). cbn. lia.
Defined.

End SeedUsed.

(** ** The score set *)

Section ScoreSetFacts.
Import Double AlignmentResult ScoreSet.

(** The test of [updateBestScore] decides the lexicographic order. *)
Lemma lex_exceeds_decided (a1 : Z) (p1 : double) (a2 : Z) (p2 : double) :
  (a1 >? a2) || ((a1 =? a2) && gt p1 p2) = true <-> lex_exceeds a1 p1 a2 p2.
Proof.
  unfold lex_exceeds.
  rewrite orb_true_iff, andb_true_iff, Z.gtb_gt, Z.eqb_eq. reflexivity.
Qed.

(** C2.  For every score set and every result, [updateBestScore] adds the
    result's match probability to [probabilityOfAllCandidates]; when
    (agScore, matchProbability) of the result is lexicographically
    strictly above (bestScoreAGScore, bestScoreMatchProbability) it
    installs the ten fields of the result as the new best and returns
    true, and otherwise it returns false. *)
Theorem updateBestScore_installs_iff_exceeds
    (s : ScoreSet) (result : SingleAlignmentResult) :
  let exceeds :=
    lex_exceeds (agScore result) (matchProbability result)
                (bestScoreAGScore s) (bestScoreMatchProbability s) in
  let returned := fst (updateBestScore s result) in
  let s' := snd (updateBestScore s result) in
  probabilityOfAllCandidates s'
  = add (probabilityOfAllCandidates s) (matchProbability result) /\
  (returned = true <-> exceeds) /\
  (exceeds -> installed s' result) /\
  (installed s' result /\ returned = true <-> exceeds).
Proof.
  cbv zeta. unfold updateBestScore.
  cbn [bestScoreAGScore bestScoreMatchProbability
       set_probabilityOfAllCandidates probabilityOfAllCandidates].
  pose proof (lex_exceeds_decided (agScore result) (matchProbability result)
                (bestScoreAGScore s) (bestScoreMatchProbability s)) as Hdec.
  destruct ((agScore result >? bestScoreAGScore s)
            || ((agScore result =? bestScoreAGScore s)
                && gt (matchProbability result)
                      (bestScoreMatchProbability s))) eqn:Htest;
    cbn [fst snd probabilityOfAllCandidates].
  - assert (Hex := proj1 Hdec eq_refl).
    assert (Hinst : installed
              {| bestScore := score result;
                 bestScoreGenomeLocation := location result;
                 bestScoreOrigGenomeLocation := origLocation result;
                 bestScoreDirection := direction result;
                 bestScoreUsedAffineGapScoring := usedAffineGapScoring result;
                 bestScoreBasesClippedBefore := basesClippedBefore result;
                 bestScoreBasesClippedAfter := basesClippedAfter result;
                 bestScoreAGScore := agScore result;
                 bestScoreSeedOffset := seedOffset result;
                 bestScoreMatchProbability := matchProbability result;
                 probabilityOfAllCandidates :=
                   add (probabilityOfAllCandidates s) (matchProbability result);
                 probabilityOfBestCandidate := probabilityOfBestCandidate s |}
              result).
    { unfold installed. cbn. repeat split; reflexivity. }
    repeat split; auto.
  - assert (Hnot : ~ lex_exceeds (agScore result) (matchProbability result)
                     (bestScoreAGScore s) (bestScoreMatchProbability s)).
    { intros Hex. apply Hdec in Hex. discriminate Hex. }
    split; [reflexivity |].
    split; [split; [discriminate | contradiction] |].
    split; [contradiction |].
    split; [intros [_ H]; discriminate H | contradiction].
Qed.

(** C8.  When [updateBestScore] returns false, the ten fields of the best
    candidate and [probabilityOfBestCandidate] are as before; the score
    set after the call is the one before it with the result's match
    probability added to [probabilityOfAllCandidates]. *)
Theorem updateBestScore_false_frame
    (s : ScoreSet) (result : SingleAlignmentResult) :
  fst (updateBestScore s result) = false ->
  same_best s (snd (updateBestScore s result)) /\
  snd (updateBestScore s result)
  = set_probabilityOfAllCandidates s
      (add (probabilityOfAllCandidates s) (matchProbability result)).
Proof.
  unfold updateBestScore.
  destruct ((agScore result
               >? bestScoreAGScore
                    (set_probabilityOfAllCandidates s
                       (add (probabilityOfAllCandidates s)
                            (matchProbability result))))
            || _) eqn:Htest; cbn [fst snd]; intros Hret.
  - discriminate Hret.
  - split; [| reflexivity].
    unfold same_best. cbn. repeat split; reflexivity.
Qed.

End ScoreSetFacts.

(** ** Signs of IEEE sums *)

Section FloatSign.
Import Double (not_below_zero).
Variables prec emax : Z.

Lemma shr_1_nonneg (mrs : shr_record) :
  0 <= shr_m mrs -> 0 <= shr_m (shr_1 mrs).
Proof.
  destruct mrs as [m r s]. cbn [shr_m].
  destruct m as [| p | p]; cbn; intros H; [lia | | lia].
  destruct p; cbn; lia.
Qed.

Lemma iter_shr_1_nonneg (p : positive) :
  forall mrs, 0 <= shr_m mrs -> 0 <= shr_m (SpecFloat.iter_pos shr_1 p mrs).
Proof.
  induction p as [p IH | p IH |]; intros mrs H; cbn [SpecFloat.iter_pos].
  - apply IH, IH, shr_1_nonneg, H.
  - apply IH, IH, H.
  - apply shr_1_nonneg, H.
Qed.

Lemma shr_fexp_nonneg (m e : Z) (l : location) :
  0 <= m -> 0 <= shr_m (fst (shr_fexp prec emax m e l)).
Proof.
  intros Hm. unfold shr_fexp, shr.
  assert (H0 : 0 <= shr_m (shr_record_of_loc m l)).
  { destruct l as [| []]; exact Hm. }
  destruct (fexp prec emax (Zdigits2 m + e) - e); cbn [fst]; auto.
  apply iter_shr_1_nonneg, H0.
Qed.

Lemma round_nearest_even_nonneg (m : Z) (l : location) :
  0 <= m -> 0 <= round_nearest_even m l.
Proof.
  intros Hm. destruct l as [| []]; cbn; try lia.
  destruct (Z.even m); lia.
Qed.

Lemma binary_round_aux_nonneg (m e : Z) (l : location) :
  0 <= m -> not_below_zero (binary_round_aux prec emax false m e l) = true.
Proof.
  intros Hm. unfold binary_round_aux.
  pose proof (shr_fexp_nonneg m e l Hm) as H1.
  destruct (shr_fexp prec emax m e l) as [mrs' e'] eqn:E1. cbn [fst] in H1.
  pose proof (shr_fexp_nonneg
                (round_nearest_even (shr_m mrs') (loc_of_shr_record mrs'))
                e' loc_Exact
                (round_nearest_even_nonneg _ _ H1)) as H2.
  destruct (shr_fexp prec emax _ e' loc_Exact) as [mrs'' e''] eqn:E2.
  cbn [fst] in H2.
  destruct (shr_m mrs'') as [| p | p]; [reflexivity | | lia].
  destruct (e'' <=? emax - prec); reflexivity.
Qed.

Lemma SFadd_nonneg (x y : spec_float) :
  not_below_zero x = true -> not_below_zero y = true ->
  not_below_zero (SFadd prec emax x y) = true.
Proof.
  destruct x as [sx | [|] | | [|] mx ex]; try discriminate;
  destruct y as [sy | [|] | | [|] my ey]; try discriminate;
  intros _ _; try reflexivity.
  - destruct sx, sy; reflexivity.
  - unfold SFadd, cond_Zopp.
    rewrite <- Pos2Z.inj_add.
    unfold binary_normalize, binary_round.
    destruct (shl_align (_ + _) _ _) as [mz ez].
    apply binary_round_aux_nonneg. lia.
Qed.

End FloatSign.

Section DoubleFacts.
Import Double.

Lemma le_zero_not_below_zero (x : double) : le zero x = not_below_zero x.
Proof. destruct x as [s | [|] | | [|] m e]; reflexivity. Qed.

Lemma add_nonneg (x y : double) :
  le zero x = true -> le zero y = true -> le zero (add x y) = true.
Proof.
  rewrite !le_zero_not_below_zero. apply SFadd_nonneg.
Qed.

Lemma not_lt_zero_le (x : double) :
  is_nan x = false -> lt x zero = false -> le zero x = true.
Proof. destruct x as [s | [|] | | [|] m e]; cbn; congruence. Qed.

Lemma lt_zero_le (x : double) : lt x zero = true -> le x zero = true.
Proof. destruct x as [s | [|] | | [|] m e]; cbn; congruence. Qed.

Lemma le_refl (x : double) : is_nan x = false -> le x x = true.
Proof.
  destruct x as [s | [|] | | [|] m e]; cbn; try congruence;
    intros _; unfold le, SFleb, SFcompare;
    rewrite Z.compare_refl, Pos.compare_cont_refl; reflexivity.
Qed.

(** On numbers the macro is the maximum with zero. *)
Lemma max_zero_is_max (d : double) :
  is_nan d = false -> is_max (__max zero d) zero d.
Proof.
  intros Hnan. unfold __max, gt. fold (lt d zero).
  destruct (lt d zero) eqn:Hlt; unfold is_max.
  - split; [reflexivity |]. split; [apply lt_zero_le, Hlt | left; reflexivity].
  - split; [apply not_lt_zero_le; assumption |].
    split; [apply le_refl, Hnan | right; reflexivity].
Qed.

Lemma max_zero_not_negative (d : double) : lt (__max zero d) zero = false.
Proof.
  unfold __max, gt. fold (lt d zero).
  destruct (lt d zero) eqn:Hlt; [reflexivity | exact Hlt].
Qed.

End DoubleFacts.

Section ScoreSetProbabilities.
Import Double ScoreSet.

(** C5.  [probabilityOfAllCandidates] never becomes negative.  For every
    score set where it is at least zero: [updateProbabilityOfAllMatches]
    sets it to the maximum of zero and the difference
    [probabilityOfAllCandidates - oldProbability] (zero when the
    difference is below zero, the difference otherwise), which is not
    below zero; and [updateProbabilityOfBestMatch] with a
    [newProbability] that is at least zero leaves it at least zero. *)
Theorem probabilityOfAllCandidates_never_negative (s : ScoreSet) :
  le zero (probabilityOfAllCandidates s) = true ->
  (forall oldProbability : double,
     let d := sub (probabilityOfAllCandidates s) oldProbability in
     let after :=
       probabilityOfAllCandidates
         (updateProbabilityOfAllMatches s oldProbability) in
     after = (if lt d zero then zero else d) /\
     lt after zero = false /\
     (is_nan d = false -> is_max after zero d)) /\
  (forall newProbability : double,
     le zero newProbability = true ->
     le zero (probabilityOfAllCandidates
                (updateProbabilityOfBestMatch s newProbability)) = true).
Proof.
  intros Hs. split.
  - intros old. cbv zeta. unfold updateProbabilityOfAllMatches.
    cbn [probabilityOfAllCandidates set_probabilityOfAllCandidates].
    split; [reflexivity |].
    split; [apply max_zero_not_negative | apply max_zero_is_max].
  - intros p Hp. unfold updateProbabilityOfBestMatch.
    cbn [probabilityOfAllCandidates set_probabilityOfAllCandidates
         set_probabilityOfBestCandidate].
    apply add_nonneg; assumption.
Qed.

Lemma probabilityOfAllCandidates_never_negative_witness :
  le zero (probabilityOfAllCandidates Samples.scores) = true /\
  probabilityOfAllCandidates
    (updateProbabilityOfAllMatches Samples.scores Samples.quarter)
  = Samples.quarter /\
  le zero (probabilityOfAllCandidates
             (updateProbabilityOfBestMatch Samples.scores Samples.quarter))
  = true.
Proof.
  assert (H : le zero (probabilityOfAllCandidates Samples.scores) = true)
    by reflexivity.
  split; [exact H |].
  destruct (probabilityOfAllCandidates_never_negative Samples.scores H)
    as [Hall Hbest].
  split.
  - rewrite (proj1 (Hall Samples.quarter)). reflexivity.
  - apply Hbest. reflexivity.
Defined.

(** One step outside the numbers: when the difference is a NaN, so is
    the value that [updateProbabilityOfAllMatches] stores; it is still
    not below zero. *)
Lemma updateProbabilityOfAllMatches_nan (s : ScoreSet) :
  probabilityOfAllCandidates (updateProbabilityOfAllMatches s S754_nan)
  = S754_nan.
Proof.
  unfold updateProbabilityOfAllMatches.
  cbn [probabilityOfAllCandidates set_probabilityOfAllCandidates].
  destruct (probabilityOfAllCandidates s) as [? | ? | | ? ? ?]; reflexivity.
Qed.

End ScoreSetProbabilities.

Section ScoreSetWitnesses.
Import Double AlignmentResult ScoreSet.

Lemma updateBestScore_false_frame_witness :
  fst (updateBestScore Samples.scores (Samples.candidate 90 Samples.quarter))
  = false /\
  same_best Samples.scores
    (snd (updateBestScore Samples.scores
            (Samples.candidate 90 Samples.quarter))).
Proof.
  assert (H : fst (updateBestScore Samples.scores
                     (Samples.candidate 90 Samples.quarter)) = false)
    by reflexivity.
  split; [exact H |].
  exact (proj1 (updateBestScore_false_frame Samples.scores
                  (Samples.candidate 90 Samples.quarter) H)).
Defined.

(** The test on concrete candidates: a higher affine-gap score wins, an
    equal score with a lower or an equal probability does not, an equal
    score with a higher probability does. *)
Lemma updateBestScore_runs :
  fst (updateBestScore Samples.scores (Samples.candidate 91 Samples.quarter))
  = true /\
  fst (updateBestScore Samples.scores (Samples.candidate 90 Samples.quarter))
  = false /\
  fst (updateBestScore Samples.scores (Samples.candidate 90 Samples.half))
  = false /\
  fst (updateBestScore
         (snd (updateBestScore Samples.scores
                 (Samples.candidate 91 Samples.quarter)))
         (Samples.candidate 91 Samples.half))
  = true /\
  probabilityOfAllCandidates
    (snd (updateBestScore Samples.scores
            (Samples.candidate 90 Samples.half)))
  = S754_finite false 4503599627370496 (-52).
Proof. repeat split; reflexivity. Qed.

End ScoreSetWitnesses.

(** ** The writer's watchdog *)

Section Watchdog.
Import Int SimpleReadWriter.

(** C6.  [checkIfTooSlow] never ends the process when [killIfTooSlow] is
    false.  When it is true, the call ends the process exactly when an
    earlier check has taken place ([lastTooSlowCheck] is not 0), at least
    five minutes have passed since, and fewer writes than the minimum for
    a period were counted; in every other case it returns, with
    [killIfTooSlow] as it was and only the two counters changed. *)
Theorem checkIfTooSlow_exits_only_when_slow (now : Z) (w : Watchdog) :
  in_i64 (lastTooSlowCheck w + tooSlowCheckPeriod) ->
  let slow :=
    killIfTooSlow w = true /\
    lastTooSlowCheck w <> 0 /\
    5 * 60 * 1000 <= now - lastTooSlowCheck w /\
    writesSinceLastTooSlowCheck w < tooSlowCheckMinReadsPerCheckPeriod in
  (killIfTooSlow w = false -> checkIfTooSlow now w = Returns w) /\
  (forall code, checkIfTooSlow now w = SoftExit code -> slow) /\
  (slow -> checkIfTooSlow now w = SoftExit 1) /\
  (~ slow ->
   exists w',
     checkIfTooSlow now w = Returns w' /\
     killIfTooSlow w' = killIfTooSlow w /\
     (killIfTooSlow w = true ->
      if lastTooSlowCheck w + 5 * 60 * 1000 <=? now
      then lastTooSlowCheck w' = now /\ writesSinceLastTooSlowCheck w' = 1
      else lastTooSlowCheck w' = lastTooSlowCheck w /\
           writesSinceLastTooSlowCheck w'
           = i64_add (writesSinceLastTooSlowCheck w) 1)).
Proof.
  intros Hrange. cbv zeta.
  unfold checkIfTooSlow, i64_add.
  rewrite (to_i64_id _ Hrange).
  change tooSlowCheckPeriod with (5 * 60 * 1000) in *.
  destruct (killIfTooSlow w) eqn:Hkill.
  - destruct (Z.leb_spec (lastTooSlowCheck w + 5 * 60 * 1000) now) as [Hle | Hgt].
    + destruct (Z.eqb_spec (lastTooSlowCheck w) 0) as [H0 | H0];
        cbn [negb andb].
      * split; [discriminate |].
        split; [discriminate |].
        split; [intros (_ & Hne & _); contradiction |].
        intros _. eexists. split; [reflexivity |]. cbn.
        split; [reflexivity |]. intros _. split; reflexivity.
      * destruct (Z.ltb_spec (writesSinceLastTooSlowCheck w)
                    tooSlowCheckMinReadsPerCheckPeriod) as [Hw | Hw].
        -- split; [discriminate |].
           split; [intros _ _; repeat split; auto; lia |].
           split; [reflexivity |].
           intros Hn. exfalso. apply Hn. repeat split; auto; lia.
        -- split; [discriminate |].
           split; [discriminate |].
           split; [intros (_ & _ & _ & Hlt); lia |].
           intros _. eexists. split; [reflexivity |]. cbn.
           split; [reflexivity |]. intros _. split; reflexivity.
    + split; [discriminate |].
      split; [discriminate |].
      split; [intros (_ & _ & Hel & _); lia |].
      intros _. eexists. split; [reflexivity |]. cbn.
      split; [reflexivity |]. intros _. split; reflexivity.
  - split; [reflexivity |].
    split; [discriminate |].
    split; [intros (Hk & _); discriminate Hk |].
    intros _. exists w. split; [reflexivity |].
    split; [exact Hkill | discriminate].
Qed.

Lemma checkIfTooSlow_exits_only_when_slow_witness :
  in_i64 (lastTooSlowCheck (Samples.watchdog 1000 17) + tooSlowCheckPeriod) /\
  checkIfTooSlow 400000 (Samples.watchdog 1000 17) = SoftExit 1.
Proof.
  assert (H : in_i64 (lastTooSlowCheck (Samples.watchdog 1000 17)
                      + tooSlowCheckPeriod))
    by (vm_compute; split; [intros H0; discriminate H0 | reflexivity]).
  split; [exact H |].
  apply (checkIfTooSlow_exits_only_when_slow 400000
           (Samples.watchdog 1000 17) H).
  unfold tooSlowCheckMinReadsPerCheckPeriod.
  cbn [Samples.watchdog killIfTooSlow lastTooSlowCheck
       writesSinceLastTooSlowCheck].
  repeat split; lia.
Defined.

(** The first call after construction ([lastTooSlowCheck] is 0) starts
    a period whatever the counter of writes holds, and a fast writer is
    let through. *)
Lemma checkIfTooSlow_runs :
  checkIfTooSlow 400000 (Samples.watchdog 0 (-5))
  = Returns (Samples.watchdog 400000 1) /\
  checkIfTooSlow 400000 (Samples.watchdog 1000 300000)
  = Returns (Samples.watchdog 400000 1) /\
  checkIfTooSlow 200000 (Samples.watchdog 1000 17)
  = Returns (Samples.watchdog 1000 18).
Proof. repeat split; reflexivity. Qed.

End Watchdog.

(** ** writeReads: candidates that cross a contig boundary *)

Section ContigBoundary.
Import Int AlignmentResult SimpleReadWriter.

Variable genome : Genome.Genome.
Variable InvalidGenomeLocation : Z.

Local Abbreviation mustGiveUpAG := (mustGiveUpAG genome).
Local Abbreviation mustGiveUpLV := (mustGiveUpLV genome).
Local Abbreviation redoAG := (redoAG genome InvalidGenomeLocation).
Local Abbreviation redoLV := (redoLV genome InvalidGenomeLocation).
Local Abbreviation adjustAG := (adjustAG genome InvalidGenomeLocation).
Local Abbreviation adjustLV := (adjustLV genome InvalidGenomeLocation).
Local Abbreviation dropped := (dropped InvalidGenomeLocation).
Local Abbreviation crossesContigBoundary := (crossesContigBoundary genome).

Lemma ContigPtr_eqb_eq (p q : Genome.ContigPtr) :
  Genome.ContigPtr_eqb p q = true <-> p = q.
Proof.
  destruct p as [i |], q as [j |]; cbn; try (split; congruence).
  rewrite Nat.eqb_eq. split; congruence.
Qed.

(** The two paths read the bound through different pointers, and test
    the same thing: where the edit-distance path reads [originalContig],
    the tests before have shown it equal to [newContig]. *)
Lemma mustGiveUpLV_is_mustGiveUpAG (a : Attempt) :
  mustGiveUpLV a = mustGiveUpAG a.
Proof.
  unfold SimpleReadWriter.mustGiveUpLV, SimpleReadWriter.mustGiveUpAG.
  destruct (newContig genome (result a) (addFrontClipping a)) as [nc |];
    [| reflexivity].
  destruct (Genome.ContigPtr_eqb (Some nc) (originalContig genome (result a)))
    eqn:Heq; cbn [negb orb]; [| reflexivity].
  apply ContigPtr_eqb_eq in Heq. rewrite <- Heq. reflexivity.
Qed.

Lemma giveUp_dropped (r : SingleAlignmentResult) :
  dropped (giveUp InvalidGenomeLocation r).
Proof. repeat split. Qed.

Lemma status_NotFound_mustGiveUp (a : Attempt) :
  status (result a) = NotFound -> mustGiveUpAG a = true.
Proof.
  intros Hs. unfold SimpleReadWriter.mustGiveUpAG, newContig.
  rewrite Hs. reflexivity.
Qed.

(** The test of the affine-gap path fires on every adjustment that
    crosses a boundary, as long as the record is not below the
    candidate's location: the contigs are looked up at the adjusted
    location itself, and the bound is tested at a location that is not
    below it. *)
Lemma crossing_mustGiveUpAG (a : Attempt) :
  in_i64 (location (result a) + addFrontClipping a) ->
  in_i64 (finalLocation a + addFrontClipping a) ->
  location (result a) <= finalLocation a ->
  crossesContigBoundary (location (result a)) (adjustedLocationAG a) ->
  mustGiveUpAG a = true.
Proof.
  intros Hr1 Hr2 Hle.
  unfold SimpleReadWriter.crossesContigBoundary, adjustedLocationAG,
         SimpleReadWriter.mustGiveUpAG, newContig, originalContig.
  destruct (AlignmentResult_eqb (status (result a)) NotFound);
    [reflexivity |].
  destruct (Genome.getContigAtLocation genome
              (i64_add (location (result a)) (addFrontClipping a)))
    as [nc |]; [| reflexivity].
  intros [Hother | Hpast].
  - destruct (Genome.ContigPtr_eqb (Some nc) _) eqn:Heq; [| reflexivity].
    apply ContigPtr_eqb_eq in Heq. congruence.
  - assert (Hbound : i64_add (finalLocation a) (addFrontClipping a)
                       > lastLocation genome nc).
    { unfold i64_add in *.
      rewrite (to_i64_id _ Hr1) in Hpast. rewrite (to_i64_id _ Hr2). lia. }
    apply Z.gtb_gt in Hbound. rewrite Hbound.
    rewrite orb_true_r. reflexivity.
Qed.

(** The affine-gap path never moves a record below the candidate's
    location: an insertion clips the read, a deletion moves the record
    to the right of the candidate's location. *)
Lemma redoAG_keeps_order (a : Attempt) :
  in_i64 (location (result a) + addFrontClipping a) ->
  location (result a) <= finalLocation a ->
  status (result (redoAG a)) <> NotFound ->
  location (result (redoAG a)) <= finalLocation (redoAG a).
Proof.
  intros Hr Hle. unfold SimpleReadWriter.redoAG.
  destruct (mustGiveUpAG a).
  - cbn. congruence.
  - destruct (addFrontClipping a <? 0) eqn:Hneg; cbn; intros _.
    + exact Hle.
    + apply Z.ltb_ge in Hneg. unfold i64_add.
      rewrite (to_i64_id _ Hr). lia.
Qed.

(** The test of the edit-distance path fires on every adjustment that
    crosses a boundary while the record is at the candidate's location,
    which is the first adjustment of a candidate. *)
Lemma crossing_mustGiveUpLV_unmoved (a : Attempt) :
  finalLocation a = location (result a) ->
  crossesContigBoundary (location (result a)) (adjustedLocationLV a) ->
  mustGiveUpLV a = true.
Proof.
  intros Hsame. rewrite mustGiveUpLV_is_mustGiveUpAG.
  unfold SimpleReadWriter.crossesContigBoundary, adjustedLocationLV,
         SimpleReadWriter.mustGiveUpAG, newContig, originalContig.
  rewrite Hsame.
  destruct (AlignmentResult_eqb (status (result a)) NotFound);
    [reflexivity |].
  destruct (Genome.getContigAtLocation genome
              (i64_add (location (result a)) (addFrontClipping a)))
    as [nc |]; [| reflexivity].
  intros [Hother | Hpast].
  - destruct (Genome.ContigPtr_eqb (Some nc) _) eqn:Heq; [| reflexivity].
    apply ContigPtr_eqb_eq in Heq. congruence.
  - apply Z.gtb_gt in Hpast. rewrite Hpast.
    rewrite orb_true_r. reflexivity.
Qed.

(** A candidate that was dropped stays dropped through a turn of either
    loop. *)
Lemma adjust_keeps_dropped (redo : Attempt -> Attempt) (a : Attempt) :
  (redo = redoAG \/ redo = redoLV) ->
  dropped (result a) -> dropped (result (fst (adjust redo a))).
Proof.
  intros Hredo Hd. unfold adjust.
  destruct (addFrontClipping (countAdjustment a) =? 0); cbn [fst].
  - exact Hd.
  - assert (Hmust : mustGiveUpAG (countAdjustment a) = true).
    { apply status_NotFound_mustGiveUp. apply Hd. }
    destruct Hredo as [-> | ->].
    + unfold SimpleReadWriter.redoAG. rewrite Hmust. apply giveUp_dropped.
    + unfold SimpleReadWriter.redoLV.
      rewrite mustGiveUpLV_is_mustGiveUpAG, Hmust. apply giveUp_dropped.
Qed.

Lemma formatLoop_keeps_dropped
    (writeRead : Read -> SingleAlignmentResult -> Z -> Z -> bool * Z)
    (redo : Attempt -> Attempt) (fuel : nat) :
  (redo = redoAG \/ redo = redoLV) ->
  forall a a',
    dropped (result a) ->
    formatLoop writeRead redo fuel a = Some a' ->
    dropped (result a').
Proof.
  intros Hredo. induction fuel as [| fuel IH]; intros a a' Hd Hrun.
  - discriminate Hrun.
  - cbn [formatLoop] in Hrun.
    destruct (writeRead (read a) (result a) (finalLocation a)
                        (addFrontClipping a)) as [written afc].
    destruct written.
    + injection Hrun as <-. exact Hd.
    + pose proof (adjust_keeps_dropped redo (setAddFrontClipping a afc)
                    Hredo Hd) as Hstep.
      destruct (adjust redo (setAddFrontClipping a afc)) as [a1 again].
      cbn [fst] in Hstep. destruct again.
      * apply (IH a1 a' Hstep Hrun).
      * injection Hrun as <-. exact Hstep.
Qed.

(** A turn of a loop whose test fires drops the candidate and goes on,
    and the candidate is still dropped when the loop ends. *)
Lemma fired_test_drops
    (writeRead : Read -> SingleAlignmentResult -> Z -> Z -> bool * Z)
    (redo : Attempt -> Attempt) (a : Attempt) :
  (redo = redoAG \/ redo = redoLV) ->
  addFrontClipping a <> 0 ->
  mustGiveUpAG (countAdjustment a) = true ->
  dropped (result (fst (adjust redo a))) /\
  snd (adjust redo a) = true /\
  (forall fuel a',
     formatLoop writeRead redo fuel (fst (adjust redo a)) = Some a' ->
     dropped (result a')).
Proof.
  intros Hredo Hafc Hmust.
  assert (Hne : (addFrontClipping (countAdjustment a) =? 0) = false)
    by (apply Z.eqb_neq; exact Hafc).
  assert (Hturn : adjust redo a
                  = (dropAttempt InvalidGenomeLocation (countAdjustment a),
                     true)).
  { unfold adjust. rewrite Hne. destruct Hredo as [-> | ->].
    - unfold SimpleReadWriter.redoAG. rewrite Hmust. reflexivity.
    - unfold SimpleReadWriter.redoLV.
      rewrite mustGiveUpLV_is_mustGiveUpAG, Hmust. reflexivity. }
  rewrite Hturn. cbn [fst snd dropAttempt result].
  split; [apply giveUp_dropped |]. split; [reflexivity |].
  intros fuel a' Hrun.
  eapply formatLoop_keeps_dropped; [exact Hredo | | exact Hrun].
  apply giveUp_dropped.
Qed.

(** What the affine-gap path does for the claim: every adjustment (not
    0) that crosses a contig boundary drops the candidate, whatever was
    adjusted before. *)
Lemma affine_gap_path_drops_crossing_candidate
    (writeReadAG : Read -> SingleAlignmentResult -> Z -> Z -> bool * Z)
    (a : Attempt) :
  addFrontClipping a <> 0 ->
  in_i64 (location (result a) + addFrontClipping a) ->
  in_i64 (finalLocation a + addFrontClipping a) ->
  location (result a) <= finalLocation a ->
  crossesContigBoundary (location (result a)) (adjustedLocationAG a) ->
  dropped (result (fst (adjustAG a))) /\
  snd (adjustAG a) = true /\
  (forall fuel a',
     formatLoop writeReadAG redoAG fuel (fst (adjustAG a)) = Some a' ->
     dropped (result a')).
Proof.
  intros Hafc Hr1 Hr2 Hle Hcross.
  apply fired_test_drops; [left; reflexivity | exact Hafc |].
  apply (crossing_mustGiveUpAG (countAdjustment a) Hr1 Hr2 Hle Hcross).
Qed.

(** What the edit-distance path does for the claim: the first
    adjustment of a candidate, made while the record is at the
    candidate's location, drops the candidate when it crosses a contig
    boundary. *)
Lemma edit_distance_path_drops_first_crossing
    (writeReadLV : Read -> SingleAlignmentResult -> Z -> Z -> bool * Z)
    (a : Attempt) :
  addFrontClipping a <> 0 ->
  finalLocation a = location (result a) ->
  crossesContigBoundary (location (result a)) (adjustedLocationLV a) ->
  dropped (result (fst (adjustLV a))) /\
  snd (adjustLV a) = true /\
  (forall fuel a',
     formatLoop writeReadLV redoLV fuel (fst (adjustLV a)) = Some a' ->
     dropped (result a')).
Proof.
  intros Hafc Hsame Hcross.
  apply fired_test_drops; [right; reflexivity | exact Hafc |].
  rewrite <- mustGiveUpLV_is_mustGiveUpAG.
  apply (crossing_mustGiveUpLV_unmoved (countAdjustment a) Hsame Hcross).
Qed.

End ContigBoundary.

Section ContigBoundaryRuns.
Import Int AlignmentResult SimpleReadWriter.

(** C1.  The claim fails on the edit-distance path of [writeReads].
    Take the genome of two contigs (the second begins at 1200), a
    candidate at location 1205 and a formatter that asks twice for an
    adjustment by -3.  At the second turn the record is at 1202 and the
    adjusted location is 1199: the contig there is not the contig at the
    candidate's location, so the adjustment crosses a contig boundary.
    The turn keeps the candidate all the same: its status stays
    SingleHit, it is not dropped, and the record moves to 1199.  The
    whole loop over the result ends so, after three calls of the
    formatter.  The loop of [writePairs] over a single alignment drops
    the candidate at the same turn. *)
Theorem edit_distance_path_keeps_crossing_candidate :
  crossesContigBoundary Samples.twoContigs
    (location (result (BoundarySamples.secondTurn 1205 1202 (-3))))
    (adjustedLocationLV (BoundarySamples.secondTurn 1205 1202 (-3))) /\
  adjustedLocationLV (BoundarySamples.secondTurn 1205 1202 (-3)) = 1199 /\
  status (result (fst (adjustLV Samples.twoContigs (-1)
                         (BoundarySamples.secondTurn 1205 1202 (-3)))))
  = SingleHit /\
  finalLocation (fst (adjustLV Samples.twoContigs (-1)
                        (BoundarySamples.secondTurn 1205 1202 (-3))))
  = 1199 /\
  ~ dropped (-1)
      (result (fst (adjustLV Samples.twoContigs (-1)
                      (BoundarySamples.secondTurn 1205 1202 (-3))))) /\
  (exists a,
     formatResult Samples.twoContigs (-1)
       (BoundarySamples.refusesFrom 1200 (-3))
       (BoundarySamples.refusesFrom 1200 (-3)) false 3
       Samples.aRead (BoundarySamples.candidateAt 1205) = Some a /\
     status (result a) = SingleHit /\
     location (result a) = 1205 /\
     finalLocation a = 1199 /\
     nAdjustments a = 2 /\
     blewBuffer a = false /\
     Genome.getContigAtLocation Samples.twoContigs (location (result a))
     = Some 1%nat /\
     Genome.getContigAtLocation Samples.twoContigs (finalLocation a)
     = Some 0%nat) /\
  (exists p,
     WritePairs.adjustPair
       (WritePairs.redoPairLV Samples.twoContigs (-1))
       (BoundarySamples.secondTurnOfPair 1205 1202 (-3)) = Some p /\
     status (WritePairs.presult p) = NotFound /\
     score (WritePairs.presult p) = -1 /\
     direction (WritePairs.presult p) = FORWARD /\
     WritePairs.plocation p = -1).
Proof.
  split.
  { unfold crossesContigBoundary. cbn. left. discriminate. }
  split; [reflexivity |]. split; [reflexivity |]. split; [reflexivity |].
  split.
  { intros (Hstatus & _). cbn in Hstatus. discriminate Hstatus. }
  split.
  - eexists. split; [reflexivity |]. repeat split; reflexivity.
  - eexists. split; [reflexivity |]. repeat split; reflexivity.
Qed.

(** The same two adjustments from location 105 of the first contig,
    which begins at 100: the record ends at 99, where the genome has no
    contig, and the candidate is kept. *)
Lemma edit_distance_path_leaves_the_contigs :
  exists a,
    formatResult Samples.twoContigs (-1)
      (BoundarySamples.refusesFrom 100 (-3))
      (BoundarySamples.refusesFrom 100 (-3)) false 3
      Samples.aRead (BoundarySamples.candidateAt 105) = Some a /\
    status (result a) = SingleHit /\
    finalLocation a = 99 /\
    Genome.getContigAtLocation Samples.twoContigs (finalLocation a) = None.
Proof.
  eexists. split; [reflexivity |]. repeat split; reflexivity.
Qed.

(** The two lemmas on what the paths do drop, at the candidate of
    [Samples] and an adjustment by 95, which passes the bound. *)
Lemma crossing_drops_run :
  dropped (-1)
    (result (fst (adjustAG Samples.twoContigs (-1) (Samples.attempt 95)))) /\
  dropped (-1)
    (result (fst (adjustLV Samples.twoContigs (-1) (Samples.attempt 95)))).
Proof.
  assert (Hafc : addFrontClipping (Samples.attempt 95) <> 0)
    by (cbn; discriminate).
  assert (Hcross : crossesContigBoundary Samples.twoContigs
                     (location (result (Samples.attempt 95)))
                     (adjustedLocationLV (Samples.attempt 95))).
  { unfold crossesContigBoundary. cbn. right. reflexivity. }
  split.
  - apply (affine_gap_path_drops_crossing_candidate Samples.twoContigs (-1)
             (Samples.refusesLocated 95) (Samples.attempt 95) Hafc);
      [unfold in_i64; cbn; lia | unfold in_i64; cbn; lia | cbn; lia
      | exact Hcross].
  - apply (edit_distance_path_drops_first_crossing Samples.twoContigs (-1)
             (Samples.refusesLocated 95) (Samples.attempt 95) Hafc);
      [reflexivity | exact Hcross].
Qed.

(** The three ways of crossing, run on the sample genome: past the bound
    within the same contig (by 95), into the next contig (by 200), off
    the genome (by -1000); and an adjustment that stays inside (by 5),
    which the affine-gap path takes as a deletion and the edit-distance
    path as a move with clipping. *)
Lemma adjust_runs :
  map (fun afc =>
         status (result (fst (adjustAG Samples.twoContigs (-1)
                                (Samples.attempt afc)))))
      [95; 200; -1000; 5]
  = [NotFound; NotFound; NotFound; SingleHit] /\
  map (fun afc =>
         status (result (fst (adjustLV Samples.twoContigs (-1)
                                (Samples.attempt afc)))))
      [95; 200; -1000; 5]
  = [NotFound; NotFound; NotFound; SingleHit] /\
  finalLocation (fst (adjustAG Samples.twoContigs (-1) (Samples.attempt 5)))
  = 1015 /\
  finalLocation (fst (adjustLV Samples.twoContigs (-1) (Samples.attempt 5)))
  = 1015 /\
  finalLocation (fst (adjustAG Samples.twoContigs (-1) (Samples.attempt 95)))
  = -1.
Proof. repeat split; reflexivity. Qed.

(** The whole loop over one result ends after two calls of the
    formatter, with the candidate dropped, on either path. *)
Lemma formatResult_runs :
  (exists a,
     formatResult Samples.twoContigs (-1)
       (Samples.refusesLocated 95) (Samples.refusesLocated 95) true 2
       Samples.aRead (Samples.candidate 80 Samples.half) = Some a /\
     dropped (-1) (result a) /\ blewBuffer a = false) /\
  (exists a,
     formatResult Samples.twoContigs (-1)
       (Samples.refusesLocated 95) (Samples.refusesLocated 95) false 2
       Samples.aRead (Samples.candidate 80 Samples.half) = Some a /\
     dropped (-1) (result a) /\ blewBuffer a = false).
Proof.
  split; eexists; (split; [reflexivity |]); repeat split; reflexivity.
Qed.

End ContigBoundaryRuns.

(** ** ReadFASTAGenome: the bases of the genome *)

Section FastaCharacters.
Import FASTA.
Local Open Scope byte_scope.

(** After [toupper] the table accepts exactly the five upper-case
    letters: its lower-case entries are out of reach. *)
Lemma valid_toupper (c : byte) : valid (toupper c) = isBase (toupper c).
Proof. destruct c; reflexivity. Qed.

Lemma isBase_not_NUL (c : byte) : isBase c = true -> Byte.eqb c "000" = false.
Proof. destruct c; cbn; congruence. Qed.

Lemma masked_isBase (c : byte) :
  isBase (if isBase (toupper c) then toupper c else "N") = true.
Proof.
  destruct (isBase (toupper c)) eqn:H; [exact H | reflexivity].
Qed.

Lemma cut_at_absent (ch : byte) (s : list byte) :
  Forall (fun c => Byte.eqb c ch = false) s -> cut_at ch s = s.
Proof.
  induction 1 as [| c s Hc _ IH]; [reflexivity |].
  cbn [cut_at]. rewrite Hc, IH. reflexivity.
Qed.

Lemma upperCasedAndMasked_bases (s : list byte) :
  Forall (fun c => isBase c = true) (upperCasedAndMasked s).
Proof.
  unfold upperCasedAndMasked. induction s as [| c s IH]; cbn [map].
  - constructor.
  - constructor; [apply masked_isBase | exact IH].
Qed.

Lemma c_str_bases (s : list byte) :
  Forall (fun c => isBase c = true) s -> c_str s = s.
Proof.
  intros H. apply cut_at_absent.
  induction H as [| c s Hc _ IH]; constructor;
    [apply isBase_not_NUL, Hc | exact IH].
Qed.

(** The line that reaches [addData]: the in-place edits of the code
    amount to the claim's upper-casing and masking. *)
Lemma sequenceLine_upperCasedAndMasked (line : list byte) :
  c_str (sequenceLine line) = upperCasedAndMasked (cut_at "010" line).
Proof.
  assert (Heq : sequenceLine line = upperCasedAndMasked (cut_at "010" line)).
  { unfold sequenceLine, upperCasedAndMasked.
    induction (cut_at "010" line) as [| c s IH]; [reflexivity |].
    cbn [map]. rewrite IH, valid_toupper. reflexivity. }
  rewrite Heq. apply c_str_bases, upperCasedAndMasked_bases.
Qed.

Lemma c_str_paddingBuffer (n : Z) : c_str (paddingBuffer n) = paddingBuffer n.
Proof.
  apply cut_at_absent. unfold paddingBuffer.
  induction (Z.to_nat n) as [| k IH]; cbn [replicate]; constructor;
    [reflexivity | exact IH].
Qed.

Lemma paddingBuffer_n (n : Z) : Forall (fun c => c = "n") (paddingBuffer n).
Proof.
  unfold paddingBuffer.
  induction (Z.to_nat n) as [| k IH]; cbn [replicate]; constructor;
    [reflexivity | exact IH].
Qed.

End FastaCharacters.

Section FastaGenome.
Import FASTA.
Import SimpleReadWriter (Outcome, Returns, SoftExit).
Local Open Scope byte_scope.

Variable pieceNameTerminatorCharacters : option (list byte).
Variable spaceIsAPieceNameTerminator : bool.
Variable chromosomePaddingSize : Z.

Local Abbreviation readLine :=
  (readLine pieceNameTerminatorCharacters spaceIsAPieceNameTerminator
            chromosomePaddingSize).
Local Abbreviation readLines :=
  (readLines pieceNameTerminatorCharacters spaceIsAPieceNameTerminator
             chromosomePaddingSize).
Local Abbreviation padding := (paddingBuffer chromosomePaddingSize).

Local Abbreviation sanitized := (sanitized chromosomePaddingSize).

Lemma call_sanitized (lines : list (list byte)) (st : Reader) (c : GenomeCall) :
  Forall (sanitized lines) (calls st) -> sanitized lines c ->
  Forall (sanitized lines) (calls (call st c)).
Proof.
  intros Hst Hc. cbn [call calls]. apply Forall_app. split; [exact Hst |].
  constructor; [exact Hc | constructor].
Qed.

Lemma readLine_sanitized (lines : list (list byte)) (st st' : Reader)
    (lineBuffer : list byte) :
  In lineBuffer lines ->
  Forall (sanitized lines) (calls st) ->
  readLine st lineBuffer = Returns st' ->
  Forall (sanitized lines) (calls st') /\ inAContig st' = true.
Proof.
  intros Hin Hst. unfold FASTA.readLine.
  destruct (Byte.eqb (first_char (c_str lineBuffer)) ">") eqn:Hhead.
  - intros Hret. injection Hret as <-. cbn [calls inAContig].
    split; [| reflexivity].
    apply Forall_app. split; [apply Forall_app; split |].
    + destruct (inAContig st);
        [apply call_sanitized; [exact Hst | exact I] | exact Hst].
    + constructor; [left; apply c_str_paddingBuffer | constructor].
    + constructor; [exact I | constructor].
  - destruct (inAContig st) eqn:Hin_contig; cbn [negb]; [| discriminate].
    intros Hret. injection Hret as <-. cbn [calls inAContig call].
    split; [| exact Hin_contig].
    apply Forall_app. split; [exact Hst |].
    constructor; [| constructor].
    right. exists lineBuffer.
    split; [exact Hin |]. split; [exact Hhead |].
    apply sequenceLine_upperCasedAndMasked.
Qed.

Lemma readLines_sanitized (lines : list (list byte)) (rest : list (list byte)) :
  forall st st',
    (forall lineBuffer, In lineBuffer rest -> In lineBuffer lines) ->
    Forall (sanitized lines) (calls st) ->
    readLines st rest = Returns st' ->
    Forall (sanitized lines) (calls st').
Proof.
  induction rest as [| lineBuffer rest IH]; intros st st' Hsub Hst Hrun.
  - injection Hrun as <-. exact Hst.
  - cbn [FASTA.readLines] in Hrun.
    destruct (readLine st lineBuffer) as [st1 | code] eqn:Hline;
      [| discriminate].
    destruct (readLine_sanitized lines st st1 lineBuffer) as [H1 _];
      [apply Hsub; left; reflexivity | exact Hst | exact Hline |].
    apply (IH st1 st'); [| exact H1 | exact Hrun].
    intros lb Hlb. apply Hsub. right. exact Hlb.
Qed.

(** Once inside a contig the loop cannot fail. *)
Lemma readLines_in_contig (rest : list (list byte)) :
  forall st, inAContig st = true ->
    exists st', readLines st rest = Returns st' /\ inAContig st' = true.
Proof.
  induction rest as [| lineBuffer rest IH]; intros st Hin.
  - exists st. split; [reflexivity | exact Hin].
  - cbn [FASTA.readLines].
    assert (Hstep : exists st1, readLine st lineBuffer = Returns st1
                                /\ inAContig st1 = true).
    { unfold FASTA.readLine.
      destruct (Byte.eqb (first_char (c_str lineBuffer)) ">").
      - eexists. split; reflexivity.
      - rewrite Hin. cbn [negb]. eexists. split; [reflexivity | exact Hin]. }
    destruct Hstep as (st1 & -> & Hin1). apply IH, Hin1.
Qed.

Lemma genomeBody_app (cs ds : list GenomeCall) :
  genomeBody (cs ++ ds) = genomeBody cs ++ genomeBody ds.
Proof.
  induction cs as [| c cs IH]; [reflexivity |].
  destruct c; cbn [genomeBody app]; rewrite IH;
    [rewrite app_assoc |..]; reflexivity.
Qed.

Lemma sanitized_genomeBody (lines : list (list byte)) (cs : list GenomeCall) :
  Forall (sanitized lines) cs ->
  Forall (fun c => isBase c = true \/ c = "n") (genomeBody cs).
Proof.
  induction 1 as [| c cs Hc _ IH]; [constructor |].
  destruct c as [data | | | |]; cbn [genomeBody]; try exact IH.
  apply Forall_app. split; [| exact IH].
  destruct Hc as [-> | (lb & _ & _ & ->)].
  - eapply Forall_impl; [apply paddingBuffer_n |].
    intros c Hc. right. exact Hc.
  - eapply Forall_impl; [apply upperCasedAndMasked_bases |].
    intros c Hc. left. exact Hc.
Qed.

End FastaGenome.

Section FastaClaim.
Import FASTA.
Import SimpleReadWriter (Outcome, Returns, SoftExit).
Local Open Scope byte_scope.

Variable pieceNameTerminatorCharacters : option (list byte).
Variable spaceIsAPieceNameTerminator : bool.
Variable chromosomePaddingSize : Z.

Local Abbreviation ReadFASTAGenome :=
  (ReadFASTAGenome pieceNameTerminatorCharacters spaceIsAPieceNameTerminator
                   chromosomePaddingSize).

(** A file whose first line names a contig is read to the end: a genome
    is returned. *)
Lemma ReadFASTAGenome_returns (first : list byte) (rest : list (list byte)) :
  Byte.eqb (first_char (c_str first)) ">" = true ->
  exists cs, ReadFASTAGenome (Some (first :: rest)) = Returns (Some cs).
Proof.
  intros Hhead. unfold FASTA.ReadFASTAGenome. cbn [readLines].
  unfold readLine at 1. rewrite Hhead. cbn [inAContig].
  match goal with
  | |- context [readLines _ _ _ ?st rest] =>
      destruct (readLines_in_contig pieceNameTerminatorCharacters
                  spaceIsAPieceNameTerminator chromosomePaddingSize
                  rest st eq_refl) as (st' & -> & Hin)
  end.
  rewrite Hin. cbn [negb]. eexists. reflexivity.
Qed.

(** No genome comes out of a file that cannot be opened, of an empty
    file, or of a file that starts with a sequence line (which ends the
    process). *)
Lemma ReadFASTAGenome_no_genome (first : list byte) (rest : list (list byte)) :
  ReadFASTAGenome None = Returns None /\
  ReadFASTAGenome (Some []) = Returns None /\
  (Byte.eqb (first_char (c_str first)) ">" = false ->
   ReadFASTAGenome (Some (first :: rest)) = SoftExit 1).
Proof.
  split; [reflexivity |]. split; [reflexivity |].
  intros Hhead. unfold FASTA.ReadFASTAGenome. cbn [readLines].
  unfold readLine. rewrite Hhead. reflexivity.
Qed.

(** C10.  Whatever the file, when [ReadFASTAGenome] returns a genome,
    every string it has passed to [addData] is the padding of lower-case
    'n' or a sequence line of the file that has first been cut at its
    newline, upper-cased and had every character outside {A,C,G,T,N}
    replaced by 'N'; so the body of the genome holds only A, C, G, T, N
    and the 'n' of the padding. *)
Theorem genome_body_is_ACGTN
    (lines : list (list byte)) (cs : list GenomeCall) :
  ReadFASTAGenome (Some lines) = Returns (Some cs) ->
  (forall data, In (addData data) cs ->
     data = paddingBuffer chromosomePaddingSize \/
     exists lineBuffer,
       In lineBuffer lines /\
       Byte.eqb (first_char (c_str lineBuffer)) ">" = false /\
       data = upperCasedAndMasked (cut_at "010" (c_str lineBuffer)) /\
       Forall (fun c => isBase c = true) data) /\
  Forall (fun c => isBase c = true \/ c = "n") (genomeBody cs).
Proof.
  intros Hrun. unfold FASTA.ReadFASTAGenome in Hrun.
  match type of Hrun with
  | context [readLines _ _ _ ?st0 lines] =>
      destruct (readLines pieceNameTerminatorCharacters
                  spaceIsAPieceNameTerminator chromosomePaddingSize
                  st0 lines) as [st | code] eqn:Hlines
  end; [| discriminate].
  destruct (inAContig st); cbn [negb] in Hrun; [| discriminate].
  injection Hrun as <-.
  assert (Hst : Forall (sanitized chromosomePaddingSize lines) (calls st)).
  { eapply readLines_sanitized; [| | exact Hlines]; [auto | constructor]. }
  assert (Hall : Forall (sanitized chromosomePaddingSize lines)
                   (calls (call (call (call (call st
                      (MarkALTContigIfAppropriate (lastContigName st)
                                                  (contigLength st)))
                      (addData (c_str (paddingBuffer chromosomePaddingSize))))
                      fillInContigLengths) sortContigsByName))).
  { repeat (apply call_sanitized; try exact I); [exact Hst |].
    left. apply c_str_paddingBuffer. }
  split.
  - intros data Hin.
    rewrite Forall_forall in Hall.
    specialize (Hall (addData data)).
    assert (Hs : sanitized chromosomePaddingSize lines (addData data)).
    { apply Hall. apply list_elem_of_In. exact Hin. }
    destruct Hs as [-> | (lb & Hlb & Hhead & ->)]; [left; reflexivity |].
    right. exists lb. repeat split; auto.
    apply upperCasedAndMasked_bases.
  - eapply sanitized_genomeBody. exact Hall.
Qed.

End FastaClaim.

Section FastaRuns.
Import FASTA.
Import SimpleReadWriter (Outcome, Returns, SoftExit).
Local Open Scope byte_scope.

Lemma sample_fasta_runs :
  ReadFASTAGenome None true 3 (Some Samples.fasta)
  = Returns
      (Some [addData ["n"; "n"; "n"];
             startContig ["c"; "h"; "r"; "1"];
             addData ["A"; "C"; "G"; "T"; "N"; "N"; "N"; "N"];
             addData [];
             MarkALTContigIfAppropriate ["c"; "h"; "r"; "1"] 8;
             addData ["n"; "n"; "n"];
             startContig ["b"];
             addData ["A"];
             MarkALTContigIfAppropriate ["b"] 1;
             addData ["n"; "n"; "n"];
             fillInContigLengths;
             sortContigsByName]).
Proof. reflexivity. Qed.

Lemma genome_body_is_ACGTN_witness :
  exists cs,
    ReadFASTAGenome None true 3 (Some Samples.fasta) = Returns (Some cs) /\
    Forall (fun c => isBase c = true \/ c = "n") (genomeBody cs).
Proof.
  eexists. split; [exact sample_fasta_runs |].
  exact (proj2 (genome_body_is_ACGTN None true 3 Samples.fasta _
                  sample_fasta_runs)).
Defined.

End FastaRuns.

(* ===================================================================== *)
(** * Part III.  Further properties of the same code                      *)
(* ===================================================================== *)

(** ** hash and decomposeGenomeLocation together *)

Section HashFacts.
Import Int BaseAligner.

(** X1.  [hash] is a permutation of the 64-bit values: two keys have the
    same hash only when they are the same key, and every 64-bit value is
    the hash of a 64-bit key. *)
Theorem hash_is_a_permutation (a b : Z) :
  0 <= a < 2 ^ 64 -> 0 <= b < 2 ^ 64 ->
  (hash a = hash b <-> a = b) /\
  exists key, 0 <= key < 2 ^ 64 /\ hash key = a.
Proof.
  intros Ha Hb. split.
  - split; [apply hash_injective; assumption | intros ->; reflexivity].
  - exists ((a * 281629680514649643) mod 2 ^ 64).
    split; [apply Z.mod_pos_bound; lia |].
    unfold hash, u64_mul, to_u64.
    rewrite Z.mul_mod_idemp_l by lia.
    replace (a * 281629680514649643 * 131) with (a + a * 2 * 2 ^ 64) by lia.
    rewrite Z.mod_add by lia. apply Z.mod_small. exact Ha.
Qed.

Lemma hash_is_a_permutation_witness :
  (hash 5 = hash 7 <-> 5 = 7) /\
  exists key, 0 <= key < 2 ^ 64 /\ hash key = 5.
Proof.
  apply (hash_is_a_permutation 5 7); lia.
Defined.

Lemma pow2_divides_pow2 (k : Z) : 0 <= k <= 64 -> (2 ^ k | 2 ^ 64).
Proof.
  intros Hk. exists (2 ^ (64 - k)).
  rewrite <- Z.pow_add_r by lia. f_equal. lia.
Qed.

Lemma hash_mod_pow2 (key k : Z) :
  0 <= k <= 64 -> hash key mod 2 ^ k = (key * 131) mod 2 ^ k.
Proof.
  intros Hk. unfold hash, u64_mul, to_u64.
  apply Z.mod_mod_divide, pow2_divides_pow2, Hk.
Qed.

(** X2.  The low [k] bits of a hash depend on the low [k] bits of the key
    alone, for every [k] up to 64; and the hash of an element's base
    location is a multiple of 16, of 64 for long reads: the multiplication
    does not spread the high bits of a key downwards. *)
Theorem hash_low_bits (key k : Z) (LONG_READS : bool) :
  0 <= k <= 64 ->
  hash key mod 2 ^ k = hash (key mod 2 ^ k) mod 2 ^ k /\
  forall R highOrder,
    0 <= R < 2 ^ 63 ->
    fst (decomposeGenomeLocation LONG_READS R true) = Some highOrder ->
    hash highOrder mod (if LONG_READS then 64 else 16) = 0.
Proof.
  intros Hk. split.
  - rewrite !hash_mod_pow2 by exact Hk.
    rewrite (Z.mul_mod_idemp_l key 131) by lia. reflexivity.
  - intros R high HR Hhigh.
    rewrite decompose_high in Hhigh by exact HR.
    injection Hhigh as <-.
    destruct LONG_READS; cbn [hashTableElementSize maxMergeDist].
    + change 64 with (2 ^ 6) at 3. rewrite hash_mod_pow2 by lia.
      change (2 ^ 6) with 64.
      replace (64 * (R / 64) * 131) with (0 + (R / 64 * 131) * 64) by lia.
      rewrite Z.mod_add by lia. reflexivity.
    + change 16 with (2 ^ 4). rewrite hash_mod_pow2 by lia.
      change (2 ^ 4) with 16.
      replace (48 * (R / 48) * 131) with (0 + (R / 48 * 393) * 16) by lia.
      rewrite Z.mod_add by lia. reflexivity.
Qed.

Lemma hash_low_bits_witness :
  hash 1000 mod 2 ^ 8 = hash (1000 mod 2 ^ 8) mod 2 ^ 8 /\
  hash 960 mod 64 = 0.
Proof.
  destruct (hash_low_bits 1000 8 true ltac:(lia)) as [Hlow Hbase].
  split; [exact Hlow |].
  apply (Hbase 1000 960); [lia | reflexivity].
Defined.

(** X3.  An element's window: the base location of [R] is at most [R] and
    less than a window below it; the base location is its own base, with
    low-order part 0; another location has the same base exactly when it
    lies in that window; and base and low-order part together tell the
    location. *)
Theorem decomposeGenomeLocation_window (LONG_READS : bool) (R : GenomeLocation) :
  0 <= R < 2 ^ 63 ->
  exists highOrder lowOrder,
    decomposeGenomeLocation LONG_READS R true = (Some highOrder, lowOrder) /\
    highOrder <= R < highOrder + hashTableElementSize LONG_READS /\
    decomposeGenomeLocation LONG_READS highOrder true = (Some highOrder, 0) /\
    (forall R', 0 <= R' < 2 ^ 63 ->
       (fst (decomposeGenomeLocation LONG_READS R' true) = Some highOrder
        <-> highOrder <= R' < highOrder + hashTableElementSize LONG_READS)) /\
    (forall R', 0 <= R' < 2 ^ 63 ->
       decomposeGenomeLocation LONG_READS R' true = (Some highOrder, lowOrder) ->
       R' = R).
Proof.
  intros HR.
  assert (HW : 0 < hashTableElementSize LONG_READS)
    by (destruct LONG_READS; reflexivity).
  set (W := hashTableElementSize LONG_READS) in *.
  assert (Hdec : forall x, 0 <= x < 2 ^ 63 ->
            decomposeGenomeLocation LONG_READS x true
            = (Some (x - x mod W), x mod W)).
  { intros x Hx.
    pose proof (Z.mod_pos_bound x W HW). pose proof (Z.mod_le x W ltac:(lia) HW).
    unfold decomposeGenomeLocation, GenomeLocationAsInt64, u64_sub. fold W.
    rewrite (to_u64_id x) by lia. rewrite to_u64_id by lia. reflexivity. }
  pose proof (Z.mod_pos_bound R W HW) as Hlow.
  pose proof (Z.mod_le R W ltac:(lia) HW) as Hle.
  assert (Hmult : (R - R mod W) mod W = 0).
  { rewrite Zminus_mod_idemp_r, Z.sub_diag. apply Z.mod_0_l. lia. }
  exists (R - R mod W), (R mod W).
  split; [apply Hdec, HR |]. split; [lia |].
  split; [rewrite Hdec by lia; rewrite Hmult, Z.sub_0_r; reflexivity |].
  split.
  - intros R' HR'. rewrite Hdec by exact HR'. cbn [fst].
    pose proof (Z.mod_pos_bound R' W HW) as Hlow'.
    split.
    + intros Heq. injection Heq as Heq. lia.
    + intros Hin. f_equal.
      pose proof (Z.div_mod R W ltac:(lia)) as HdR.
      pose proof (Z.div_mod R' W ltac:(lia)) as HdR'.
      assert (Hq : R' / W = R / W).
      { symmetry. apply Z.div_unique with (r := R' - W * (R / W)); lia. }
      lia.
  - intros R' HR' Heq. rewrite Hdec in Heq by exact HR'.
    injection Heq as H1 H2. lia.
Qed.

Lemma decomposeGenomeLocation_window_witness :
  exists highOrder lowOrder,
    decomposeGenomeLocation false 1000 true = (Some highOrder, lowOrder) /\
    highOrder <= 1000 < highOrder + hashTableElementSize false.
Proof.
  destruct (decomposeGenomeLocation_window false 1000 ltac:(lia))
    as (h & l & H1 & H2 & _).
  exists h, l. split; assumption.
Defined.

End HashFacts.

(** ** The seedUsed bit vector as a set of read offsets *)

Section SeedUsedSet.
Import Int BaseAligner.

Lemma SetSeedsUsed_bits (indices : list Z) :
  forall seedUsed after : list Z,
    Forall (fun i => 0 <= i) indices ->
    SetSeedsUsed seedUsed indices = Some after ->
    length after = length seedUsed /\
    forall j, 0 <= j ->
      IsSeedUsed after j
      = match IsSeedUsed seedUsed j with
        | Some used => Some (used || existsb (Z.eqb j) indices)
        | None => None
        end.
Proof.
  induction indices as [| i rest IH]; intros seedUsed after Hpos Hrun.
  - injection Hrun as <-. split; [reflexivity |].
    intros j _. destruct (IsSeedUsed seedUsed j) as [u |]; [| reflexivity].
    cbn [existsb]. rewrite orb_false_r. reflexivity.
  - apply Forall_cons in Hpos as [Hi Hrest].
    cbn [SetSeedsUsed] in Hrun.
    destruct (SetSeedUsed seedUsed i) as [next |] eqn:Hset; [| discriminate].
    destruct (IH next after Hrest Hrun) as [Hlen Hbits].
    pose proof (fun j Hj => SetSeedUsed_bits seedUsed next i j Hi Hj Hset)
      as Hstep.
    split; [rewrite Hlen; apply (Hstep 0 ltac:(lia)) |].
    intros j Hj. rewrite (Hbits j Hj).
    destruct (Hstep j Hj) as [_ ->]. cbn [existsb].
    destruct (Z.eqb_spec j i) as [-> | Hne].
    + assert (Hin : exists u, IsSeedUsed seedUsed i = Some u).
      { rewrite IsSeedUsed_testbit. unfold SetSeedUsed in Hset.
        destruct (seedUsed !! Z.to_nat (i / 8)); [eexists; reflexivity |].
        discriminate Hset. }
      destruct Hin as [u ->]. cbn. rewrite orb_true_r. reflexivity.
    + destruct (IsSeedUsed seedUsed j); reflexivity.
Qed.

Lemma IsSeedUsed_zeros (n : nat) (j : Z) :
  0 <= j < 8 * Z.of_nat n -> IsSeedUsed (replicate n 0) j = Some false.
Proof.
  intros Hj. rewrite IsSeedUsed_testbit.
  assert (Hq : 0 <= j / 8 < Z.of_nat n).
  { split; [apply Z.div_pos; lia | apply Z.div_lt_upper_bound; lia]. }
  rewrite lookup_replicate_2 by lia.
  rewrite Z.bits_0. reflexivity.
Qed.

(** X4.  Starting from a bit vector of [n] zero bytes, a run of
    [SetSeedUsed] calls at offsets below [8 n] goes through, keeps the
    length, and afterwards [IsSeedUsed] answers true at exactly the offsets
    that were set. *)
Theorem seedUsed_is_the_set_of_marked_offsets (n : nat) (indices : list Z) :
  Forall (fun i => 0 <= i < 8 * Z.of_nat n) indices ->
  exists after,
    SetSeedsUsed (replicate n 0) indices = Some after /\
    length after = n /\
    forall j, 0 <= j < 8 * Z.of_nat n ->
      exists used,
        IsSeedUsed after j = Some used /\ (used = true <-> In j indices).
Proof.
  intros Hall.
  destruct (SetSeedsUsed_monotone indices (replicate n 0)) as (after & Hrun & _).
  { rewrite length_replicate. exact Hall. }
  assert (Hpos : Forall (fun i => 0 <= i) indices).
  { eapply Forall_impl; [exact Hall |]. cbn. intros i Hi. lia. }
  destruct (SetSeedsUsed_bits indices _ after Hpos Hrun) as [Hlen Hbits].
  exists after. split; [exact Hrun |].
  split; [rewrite Hlen; apply length_replicate |].
  intros j Hj. rewrite (Hbits j ltac:(lia)), (IsSeedUsed_zeros n j Hj).
  eexists. split; [reflexivity |]. cbn [orb].
  rewrite existsb_exists. split.
  - intros (x & Hx & Heq). apply Z.eqb_eq in Heq. subst x. exact Hx.
  - intros Hin. exists j. split; [exact Hin | apply Z.eqb_refl].
Qed.

Lemma seedUsed_is_the_set_of_marked_offsets_witness :
  exists after,
    SetSeedsUsed (replicate 2 0) [9; 3; 9] = Some after /\
    length after = 2%nat.
Proof.
  destruct (seedUsed_is_the_set_of_marked_offsets 2 [9; 3; 9])
    as (after & Hrun & Hlen & _).
  { repeat constructor; lia. }
  exists after. split; assumption.
Defined.

Lemma set_two_bits (b k1 k2 : Z) :
  0 <= k1 < 8 -> 0 <= k2 < 8 ->
  to_u8 (Z.lor (to_u8 (Z.lor b (Z.shiftl 1 k1))) (Z.shiftl 1 k2))
  = to_u8 (Z.lor (Z.lor b (Z.shiftl 1 k1)) (Z.shiftl 1 k2)).
Proof.
  intros H1 H2. unfold to_u8. apply Z.bits_inj'. intros n Hn.
  rewrite !Z.testbit_mod_pow2 by lia.
  destruct (Z.ltb_spec n 8) as [Hlt | Hge]; cbn [andb]; [| reflexivity].
  rewrite !Z.lor_spec, Z.testbit_mod_pow2 by lia.
  rewrite (proj2 (Z.ltb_lt n 8) Hlt), Z.lor_spec. reflexivity.
Qed.

(** X5.  Marking is idempotent and order does not matter: for offsets
    within the bit vector, [SetSeedUsed i] twice leaves what one call
    leaves, and [SetSeedUsed i] then [SetSeedUsed j] leaves what the two
    calls leave in the other order. *)
Theorem SetSeedUsed_idempotent_and_commutes (seedUsed : list Z) (i j : Z) :
  0 <= i < 8 * Z.of_nat (length seedUsed) ->
  0 <= j < 8 * Z.of_nat (length seedUsed) ->
  exists once both,
    SetSeedUsed seedUsed i = Some once /\
    SetSeedUsed once i = Some once /\
    SetSeedsUsed seedUsed [i; j] = Some both /\
    SetSeedsUsed seedUsed [j; i] = Some both.
Proof.
  intros Hi Hj.
  destruct (in_range_lookup seedUsed i Hi) as [bi Hbi].
  destruct (in_range_lookup seedUsed j Hj) as [bj Hbj].
  pose proof (lookup_lt_Some _ _ _ Hbi) as Hleni.
  pose proof (lookup_lt_Some _ _ _ Hbj) as Hlenj.
  assert (Hki : 0 <= i mod 8 < 8) by (apply Z.mod_pos_bound; lia).
  assert (Hkj : 0 <= j mod 8 < 8) by (apply Z.mod_pos_bound; lia).
  assert (Hidem : SetSeedUsed
                    (<[Z.to_nat (i / 8) :=
                         to_u8 (Z.lor bi (Z.shiftl 1 (i mod 8)))]> seedUsed) i
                  = Some (<[Z.to_nat (i / 8) :=
                              to_u8 (Z.lor bi (Z.shiftl 1 (i mod 8)))]>
                            seedUsed)).
  { unfold SetSeedUsed.
    rewrite list_lookup_insert_eq by exact Hleni.
    rewrite list_insert_insert_eq.
    rewrite set_two_bits by assumption.
    rewrite <- Z.lor_assoc, Z.lor_diag. reflexivity. }
  cbn [SetSeedsUsed]. unfold SetSeedUsed in *. rewrite Hbi, Hbj.
  destruct (Nat.eq_dec (Z.to_nat (i / 8)) (Z.to_nat (j / 8))) as [Heq | Hne].
  - rewrite <- Heq in *. rewrite !list_lookup_insert_eq by assumption.
    rewrite !list_insert_insert_eq.
    assert (bj = bi) by congruence. subst bj.
    rewrite !set_two_bits by assumption.
    eexists. eexists. split; [reflexivity |]. split; [exact Hidem |].
    split; [reflexivity |].
    do 3 f_equal. rewrite <- !Z.lor_assoc. f_equal. apply Z.lor_comm.
  - rewrite list_lookup_insert_ne by exact Hne.
    rewrite list_lookup_insert_ne by (intros H; apply Hne; symmetry; exact H).
    rewrite Hbi, Hbj.
    eexists. eexists. split; [reflexivity |]. split; [exact Hidem |].
    split; [reflexivity |].
    f_equal. apply list_insert_insert_ne. exact Hne.
Qed.

Lemma SetSeedUsed_idempotent_and_commutes_witness :
  exists once both,
    SetSeedUsed [0; 5] 9 = Some once /\
    SetSeedUsed once 9 = Some once /\
    SetSeedsUsed [0; 5] [9; 2] = Some both /\
    SetSeedsUsed [0; 5] [2; 9] = Some both.
Proof.
  apply (SetSeedUsed_idempotent_and_commutes [0; 5] 9 2); cbn; lia.
Defined.

End SeedUsedSet.

(** ** Runs of updateBestScore *)

Section ScoreSetRunsFacts.
Import Double AlignmentResult ScoreSet ScoreSetRuns.

Lemma gt_irrefl (p : double) : gt p p = false.
Proof.
  unfold gt, SFltb.
  destruct p as [s | [|] | | [|] m e]; try reflexivity; unfold SFcompare;
    rewrite Z.compare_refl, Pos.compare_cont_refl; reflexivity.
Qed.

(** One call: the affine-gap score of the best does not go down and is at
    least that of the result; the best fields are as before or are the
    result's. *)
Lemma updateBestScore_step (s : ScoreSet) (r : SingleAlignmentResult) :
  let s' := snd (updateBestScore s r) in
  bestScoreAGScore s <= bestScoreAGScore s' /\
  agScore r <= bestScoreAGScore s' /\
  (same_best s s' \/ installed s' r).
Proof.
  cbv zeta. unfold updateBestScore.
  cbn [bestScoreAGScore bestScoreMatchProbability
       set_probabilityOfAllCandidates].
  destruct (Z.gtb_spec (agScore r) (bestScoreAGScore s)) as [Hgt | Hle];
    cbn [orb snd bestScoreAGScore set_probabilityOfAllCandidates].
  - split; [lia |]. split; [lia |]. right. repeat split.
  - destruct (Z.eqb_spec (agScore r) (bestScoreAGScore s)) as [Heq | Hne];
      cbn [andb].
    + destruct (gt (matchProbability r) (bestScoreMatchProbability s));
        cbn [snd bestScoreAGScore set_probabilityOfAllCandidates].
      * split; [lia |]. split; [lia |]. right. repeat split.
      * split; [lia |]. split; [lia |]. left. repeat split.
    + cbn [snd bestScoreAGScore set_probabilityOfAllCandidates]. split; [lia |]. split; [lia |].
      left. repeat split.
Qed.

Lemma same_best_trans (s1 s2 s3 : ScoreSet) :
  same_best s1 s2 -> same_best s2 s3 -> same_best s1 s3.
Proof.
  unfold same_best.
  intros (A1 & A2 & A3 & A4 & A5 & A6 & A7 & A8 & A9 & A10 & A11)
         (B1 & B2 & B3 & B4 & B5 & B6 & B7 & B8 & B9 & B10 & B11).
  repeat split; congruence.
Qed.

Lemma installed_same_best (s s' : ScoreSet) (r : SingleAlignmentResult) :
  installed s r -> same_best s s' -> installed s' r.
Proof.
  unfold installed, same_best.
  intros (A1 & A2 & A3 & A4 & A5 & A6 & A7 & A8 & A9 & A10)
         (B1 & B2 & B3 & B4 & B5 & B6 & B7 & B8 & B9 & B10 & B11).
  repeat split; congruence.
Qed.

(** X6.  After [updateBestScore] has been called on each result of a
    list, the best affine-gap score is at least what it was and at least
    that of every result of the list, and the ten best fields are either
    as they were before the run or those of one result of the list. *)
Theorem updateBestScores_keeps_the_highest_score
    (results : list SingleAlignmentResult) (s : ScoreSet) :
  let final := updateBestScores s results in
  bestScoreAGScore s <= bestScoreAGScore final /\
  (forall r, In r results -> agScore r <= bestScoreAGScore final) /\
  (same_best s final \/ exists r, In r results /\ installed final r).
Proof.
  cbv zeta. revert s.
  induction results as [| r rest IH]; intros s; cbn [updateBestScores].
  - split; [lia |]. split; [intros r []|]. left. repeat split.
  - destruct (updateBestScore_step s r) as (H1 & H2 & H3).
    destruct (IH (snd (updateBestScore s r))) as (I1 & I2 & I3).
    split; [lia |]. split.
    + intros r' [<- | Hin]; [lia | apply I2, Hin].
    + destruct I3 as [Isame | (r' & Hin & Hinst)].
      * destruct H3 as [Hsame | Hinst].
        -- left. eapply same_best_trans; eassumption.
        -- right. exists r. split; [left; reflexivity |].
           eapply installed_same_best; eassumption.
      * right. exists r'. split; [right; exact Hin | exact Hinst].
Qed.

(** X7.  A result presented a second time never replaces the best: the
    second call returns false, whatever the first one did, and so does a
    call on any result whose affine-gap score and match probability are
    those of the current best. *)
Theorem updateBestScore_first_seen_wins
    (s : ScoreSet) (r : SingleAlignmentResult) :
  fst (updateBestScore (snd (updateBestScore s r)) r) = false /\
  (agScore r = bestScoreAGScore s ->
   matchProbability r = bestScoreMatchProbability s ->
   fst (updateBestScore s r) = false).
Proof.
  assert (Htie : forall t,
            agScore r = bestScoreAGScore t ->
            matchProbability r = bestScoreMatchProbability t ->
            fst (updateBestScore t r) = false).
  { intros t Hag Hp. unfold updateBestScore.
    cbn [bestScoreAGScore bestScoreMatchProbability
         set_probabilityOfAllCandidates].
    rewrite <- Hag, <- Hp, gt_irrefl, andb_false_r, orb_false_r.
    destruct (Z.gtb_spec (agScore r) (agScore r)) as [Hgt | _];
      [lia | reflexivity]. }
  split; [| apply Htie].
  destruct (fst (updateBestScore s r)) eqn:Hfirst.
  - apply Htie; unfold updateBestScore in *;
      destruct ((agScore r >? _) || _); cbn in *;
      [reflexivity | discriminate Hfirst | reflexivity | discriminate Hfirst].
  - unfold updateBestScore in *.
    cbn [bestScoreAGScore bestScoreMatchProbability
         set_probabilityOfAllCandidates] in *.
    destruct ((agScore r >? bestScoreAGScore s)
              || ((agScore r =? bestScoreAGScore s)
                  && gt (matchProbability r) (bestScoreMatchProbability s)))
      eqn:Htest; cbn [fst snd] in *; [discriminate Hfirst |].
    cbn [bestScoreAGScore bestScoreMatchProbability
         set_probabilityOfAllCandidates].
    rewrite Htest. reflexivity.
Qed.

Lemma updateBestScore_first_seen_wins_witness :
  fst (updateBestScore Samples.scores (Samples.candidate 90 Samples.half))
  = false.
Proof.
  apply (updateBestScore_first_seen_wins Samples.scores
           (Samples.candidate 90 Samples.half)); reflexivity.
Defined.

End ScoreSetRunsFacts.

(** ** writeReads: what formatting may change in a result *)

Section WriteReadsFrame.
Import Int AlignmentResult SimpleReadWriter WriteReadsPass.

Variable genome : Genome.Genome.
Variable InvalidGenomeLocation : Z.

Local Abbreviation giveUp := (giveUp InvalidGenomeLocation).
Local Abbreviation clearNotFound := (clearNotFound InvalidGenomeLocation).
Local Abbreviation redoAG := (redoAG genome InvalidGenomeLocation).
Local Abbreviation redoLV := (redoLV genome InvalidGenomeLocation).

Local Abbreviation formatted := (formatted InvalidGenomeLocation).

Lemma giveUp_giveUp (r : SingleAlignmentResult) : giveUp (giveUp r) = giveUp r.
Proof. reflexivity. Qed.

Lemma AlignmentResult_eqb_eq (x y : AlignmentResult) :
  AlignmentResult_eqb x y = true <-> x = y.
Proof. destruct x, y; cbn; split; congruence. Qed.

Lemma located_when_not_given_up (a : Attempt) :
  mustGiveUpAG genome a = false -> status (result a) <> NotFound.
Proof.
  intros Hmust Hs. rewrite status_NotFound_mustGiveUp in Hmust by exact Hs.
  discriminate Hmust.
Qed.

Lemma redo_formatted (redo : Attempt -> Attempt) (r0 : SingleAlignmentResult)
    (a : Attempt) :
  (redo = redoAG \/ redo = redoLV) ->
  formatted r0 a -> formatted r0 (redo a).
Proof.
  intros Hredo [Hres Hinv].
  assert (Hdrop : formatted r0 (dropAttempt InvalidGenomeLocation a)).
  { split; cbn [dropAttempt result finalLocation].
    - right. destruct Hres as [-> | ->]; reflexivity.
    - intros _. split; reflexivity. }
  destruct Hredo as [-> | ->].
  - unfold SimpleReadWriter.redoAG.
    destruct (mustGiveUpAG genome a) eqn:Hmust; [exact Hdrop |].
    pose proof (located_when_not_given_up a Hmust) as Hloc.
    destruct (addFrontClipping a <? 0); (split; cbn; [exact Hres | tauto]).
  - unfold SimpleReadWriter.redoLV.
    rewrite mustGiveUpLV_is_mustGiveUpAG.
    destruct (mustGiveUpAG genome a) eqn:Hmust; [exact Hdrop |].
    pose proof (located_when_not_given_up a Hmust) as Hloc.
    split; cbn; [exact Hres | tauto].
Qed.

Lemma formatLoop_formatted
    (writeRead : Read -> SingleAlignmentResult -> Z -> Z -> bool * Z)
    (redo : Attempt -> Attempt) (r0 : SingleAlignmentResult) (fuel : nat) :
  (redo = redoAG \/ redo = redoLV) ->
  forall a a',
    formatted r0 a ->
    formatLoop writeRead redo fuel a = Some a' ->
    formatted r0 a'.
Proof.
  intros Hredo. induction fuel as [| fuel IH]; intros a a' Hinv Hrun.
  - discriminate Hrun.
  - cbn [formatLoop] in Hrun.
    destruct (writeRead (read a) (result a) (finalLocation a)
                        (addFrontClipping a)) as [written afc].
    assert (H0 : formatted r0 (setAddFrontClipping a afc)) by exact Hinv.
    destruct written; [injection Hrun as <-; exact H0 |].
    unfold adjust in Hrun.
    assert (H1 : formatted r0 (countAdjustment (setAddFrontClipping a afc)))
      by exact H0.
    destruct (addFrontClipping (countAdjustment (setAddFrontClipping a afc))
              =? 0).
    + injection Hrun as <-. exact H1.
    + eapply IH; [| exact Hrun].
      apply redo_formatted; assumption.
Qed.

(** X8.  Formatting one result in [writeReads], on either path and
    whatever the formatter answers: when the loop ends, the result is the
    one the first loop of [writeReads] left or that one given up (status,
    location, score and direction set, every other field as it was); and
    a result that is not found has InvalidGenomeLocation as its location
    and as the location kept for the writer. *)
Theorem formatResult_changes_only_by_giving_up
    (writeReadAG writeReadLV :
       Read -> SingleAlignmentResult -> Z -> Z -> bool * Z)
    (useAffineGap : bool) (fuel : nat) (rd : Read)
    (r : SingleAlignmentResult) (a : Attempt) :
  formatResult genome InvalidGenomeLocation writeReadAG writeReadLV
    useAffineGap fuel rd (clearNotFound r) = Some a ->
  (result a = clearNotFound r \/ result a = giveUp (clearNotFound r)) /\
  (status (result a) = NotFound ->
   location (result a) = InvalidGenomeLocation /\
   finalLocation a = InvalidGenomeLocation).
Proof.
  unfold formatResult. intros Hrun.
  assert (Hstart : formatted (clearNotFound r)
            {| result := clearNotFound r;
               finalLocation := location (clearNotFound r);
               read := setAdditionalFrontClipping rd
                         (clippingForReadAdjustment (clearNotFound r));
               addFrontClipping := 0;
               cumulativeAddFrontClipping := 0;
               nAdjustments := 0;
               blewBuffer := false |}).
  { split; cbn [result finalLocation]; [left; reflexivity |].
    unfold WriteReadsPass.clearNotFound.
    destruct (AlignmentResult_eqb (status r) NotFound) eqn:Hs.
    - intros _. split; reflexivity.
    - intros Hnf. apply AlignmentResult_eqb_eq in Hnf. congruence. }
  destruct (useAffineGap
            && (usedAffineGapScoring (clearNotFound r)
                || (score (clearNotFound r) >? 0))).
  - eapply formatLoop_formatted; [left; reflexivity | exact Hstart | exact Hrun].
  - eapply formatLoop_formatted; [right; reflexivity | exact Hstart | exact Hrun].
Qed.

End WriteReadsFrame.

Section WriteReadsFrameRuns.
Import Int AlignmentResult SimpleReadWriter WriteReadsPass.

Lemma formatResult_changes_only_by_giving_up_witness :
  exists a,
    formatResult Samples.twoContigs (-1)
      (Samples.refusesLocated 95) (Samples.refusesLocated 95) true 2
      Samples.aRead (clearNotFound (-1) (Samples.candidate 80 Samples.half))
    = Some a /\
    location (result a) = -1 /\ finalLocation a = -1.
Proof.
  eexists. split; [reflexivity |].
  refine (proj2 (formatResult_changes_only_by_giving_up Samples.twoContigs (-1)
                   (Samples.refusesLocated 95) (Samples.refusesLocated 95)
                   true 2 Samples.aRead (Samples.candidate 80 Samples.half)
                   _ eq_refl) eq_refl).
Defined.

End WriteReadsFrameRuns.

(** ** writePairs *)

Section WritePairsFacts.
Import Int AlignmentResult SimpleReadWriter WritePairs.
Local Open Scope byte_scope.

Lemma last_two (s : list byte) :
  (2 <= length s)%nat ->
  exists p x y, s = p ++ [x; y] /\ length p = (length s - 2)%nat.
Proof.
  intros Hlen.
  pose proof (take_drop (length s - 2) s) as Hsplit.
  assert (Hd : length (drop (length s - 2) s) = 2%nat)
    by (rewrite length_drop; lia).
  destruct (drop (length s - 2) s) as [| x [| y [| z rest]]];
    cbn in Hd; try lia.
  exists (take (length s - 2) s), x, y.
  split; [symmetry; exact Hsplit | rewrite length_take; lia].
Qed.

Lemma charAt_last_two (p : list byte) (x y : byte) :
  charAt (p ++ [x; y]) (Z.of_nat (length (p ++ [x; y])) - 2) = x /\
  charAt (p ++ [x; y]) (Z.of_nat (length (p ++ [x; y])) - 1) = y.
Proof.
  rewrite length_app. cbn [length]. unfold charAt.
  replace (Z.to_nat (Z.of_nat (length p + 2) - 2)) with (length p + 0)%nat by lia.
  replace (Z.to_nat (Z.of_nat (length p + 2) - 1)) with (length p + 1)%nat by lia.
  rewrite !lookup_app_r by lia.
  replace (length p + 0 - length p)%nat with 0%nat by lia.
  replace (length p + 1 - length p)%nat with 1%nat by lia.
  cbn [lookup list_lookup].
  destruct (Z.leb_spec 0 (Z.of_nat (length p + 2) - 2)); [| lia].
  destruct (Z.leb_spec 0 (Z.of_nat (length p + 2) - 1)); [| lia].
  split; reflexivity.
Qed.

Lemma byte_eqb_eq (a b : byte) : Byte.eqb a b = true <-> a = b.
Proof.
  split; [apply Byte.byte_dec_bl | intros ->; apply Byte.byte_dec_lb; reflexivity].
Qed.

Lemma pairIdLengths_shortens (id0 id1 : list byte) :
  slashOneSlashTwo id0 id1 ->
  pairIdLengths id0 id1
  = (Z.of_nat (length id0) - 2, Z.of_nat (length id1) - 2).
Proof.
  intros (p0 & p1 & c0 & c1 & -> & -> & Hlen & Hne & Hc).
  unfold pairIdLengths.
  assert (Hl : Z.of_nat (length (p0 ++ ["/"; c0]))
               = Z.of_nat (length (p1 ++ ["/"; c1])))
    by (rewrite !length_app; cbn [length]; lia).
  destruct (charAt_last_two p0 "/" c0) as [H00 H01].
  destruct (charAt_last_two p1 "/" c1) as [H10 H11].
  rewrite <- Hl in H10. cbv zeta.
  rewrite H00, H01, H10, H11.
  rewrite (proj2 (Z.eqb_eq _ _) Hl).
  assert (Hgt : (Z.of_nat (length (p0 ++ ["/"; c0])) >? 2) = true).
  { apply Z.gtb_gt. rewrite length_app. cbn [length].
    destruct p0; [contradiction | cbn [length]; lia]. }
  rewrite Hgt.
  destruct Hc as [[-> ->] | [-> ->]]; reflexivity.
Qed.

Lemma pairIdLengths_cases (id0 id1 : list byte) :
  pairIdLengths id0 id1 = (Z.of_nat (length id0), Z.of_nat (length id1)) \/
  slashOneSlashTwo id0 id1.
Proof.
  unfold pairIdLengths. cbv zeta.
  destruct (Z.eqb_spec (Z.of_nat (length id0)) (Z.of_nat (length id1)))
    as [Hl | Hl]; cbn [andb]; [| left; reflexivity].
  destruct (Z.gtb_spec (Z.of_nat (length id0)) 2) as [Hgt | Hle];
    cbn [andb]; [| left; reflexivity].
  destruct (last_two id0 ltac:(lia)) as (p0 & x0 & c0 & E0 & Hp0).
  destruct (last_two id1 ltac:(lia)) as (p1 & x1 & c1 & E1 & Hp1).
  destruct (charAt_last_two p0 x0 c0) as [H00 H01].
  destruct (charAt_last_two p1 x1 c1) as [H10 H11].
  rewrite <- E0 in H00, H01. rewrite <- E1 in H10, H11.
  rewrite <- Hl in H10. rewrite H00, H01, H10, H11.
  destruct (Byte.eqb x0 "/") eqn:Hx0; cbn [andb]; [| left; reflexivity].
  destruct (Byte.eqb x1 "/") eqn:Hx1; cbn [andb]; [| left; reflexivity].
  apply byte_eqb_eq in Hx0, Hx1.
  destruct ((Byte.eqb c0 "1" || Byte.eqb c0 "2")
            && (Byte.eqb c1 "1" || Byte.eqb c1 "2")
            && negb (Byte.eqb c0 c1)) eqn:Hc; [| left; reflexivity].
  rewrite Hx0 in E0. rewrite Hx1 in E1.
  right. exists p0, p1, c0, c1.
  split; [exact E0 |]. split; [exact E1 |]. split; [lia |].
  split; [intros ->; cbn in Hp0; lia |].
  apply andb_true_iff in Hc as [Hc Hdiff].
  apply andb_true_iff in Hc as [Hc0 Hc1].
  apply orb_true_iff in Hc0, Hc1. rewrite !byte_eqb_eq in Hc0, Hc1.
  apply negb_true_iff in Hdiff.
  destruct Hc0 as [-> | ->], Hc1 as [-> | ->];
    try discriminate Hdiff; [left | right]; split; reflexivity.
Qed.

Lemma slashOneSlashTwo_sym (id0 id1 : list byte) :
  slashOneSlashTwo id0 id1 -> slashOneSlashTwo id1 id0.
Proof.
  intros (p0 & p1 & c0 & c1 & E0 & E1 & Hlen & Hne & Hc).
  exists p1, p0, c1, c0. repeat split; auto.
  - intros ->. destruct p0; [contradiction | discriminate Hlen].
  - tauto.
Qed.

(** X9.  The name lengths that [writePairs] passes on: both are shortened
    by 2 exactly when the two names end in /1 and /2 (one each) after
    stems of the same non-zero length, and are the full lengths
    otherwise.  The stems themselves are not compared.  Exchanging the
    two reads exchanges the two lengths. *)
Theorem pairIdLengths_strips_slash_suffixes (id0 id1 : list byte) :
  (slashOneSlashTwo id0 id1 ->
   pairIdLengths id0 id1
   = (Z.of_nat (length id0) - 2, Z.of_nat (length id1) - 2)) /\
  (~ slashOneSlashTwo id0 id1 ->
   pairIdLengths id0 id1 = (Z.of_nat (length id0), Z.of_nat (length id1))) /\
  pairIdLengths id1 id0
  = (snd (pairIdLengths id0 id1), fst (pairIdLengths id0 id1)).
Proof.
  split; [apply pairIdLengths_shortens |].
  split; [intros Hnot; destruct (pairIdLengths_cases id0 id1); tauto |].
  destruct (pairIdLengths_cases id0 id1) as [Hkeep | Hslash].
  - destruct (pairIdLengths_cases id1 id0) as [Hkeep' | Hslash'].
    + rewrite Hkeep, Hkeep'. reflexivity.
    + apply slashOneSlashTwo_sym, pairIdLengths_shortens in Hslash'.
      rewrite Hslash' in Hkeep. injection Hkeep as H0 H1. lia.
  - rewrite (pairIdLengths_shortens _ _ Hslash),
            (pairIdLengths_shortens _ _ (slashOneSlashTwo_sym _ _ Hslash)).
    reflexivity.
Qed.

Lemma pairIdLengths_strips_slash_suffixes_witness :
  pairIdLengths ["r"; "/"; "1"] ["q"; "/"; "2"] = (1, 1).
Proof.
  refine (proj1 (pairIdLengths_strips_slash_suffixes
                   ["r"; "/"; "1"] ["q"; "/"; "2"]) _).
  exists ["r"], ["q"], "1", "2".
  split; [reflexivity |]. split; [reflexivity |]. split; [reflexivity |].
  split; [discriminate | left; split; reflexivity].
Defined.

(** X10.  The commit of a pair hands the writer the two records in the
    order of their locations: when both reads have a location, the first
    record goes with the lower and the second with the higher; when one
    read has none (InvalidGenomeLocation), both records go with the
    location of the other; so the first location is never above the
    second. *)
Theorem commit_in_location_order (InvalidGenomeLocation final0 final1 : Z) :
  let first := commitLocation InvalidGenomeLocation 0 final0 final1 in
  let second := commitLocation InvalidGenomeLocation 1 final0 final1 in
  (final0 <> InvalidGenomeLocation -> final1 <> InvalidGenomeLocation ->
   first = Z.min final0 final1 /\ second = Z.max final0 final1) /\
  (final0 = InvalidGenomeLocation -> first = final1 /\ second = final1) /\
  (final1 = InvalidGenomeLocation -> first = final0 /\ second = final0) /\
  first <= second.
Proof.
  cbv zeta. unfold commitLocation, writeFirstOrSecond.
  change (0 =? 0)%Z with true. change (1 =? 0)%Z with false. cbv iota.
  destruct (Z.gtb_spec final0 final1) as [Hgt | Hle];
    change (Z.lxor 0 1) with 1; change (Z.lxor 1 1) with 0;
    change (Z.lxor 0 0) with 0; change (Z.lxor 1 0) with 1;
    change (1 - 1) with 0; change (1 - 0) with 1;
    change (0 =? 0)%Z with true; change (1 =? 0)%Z with false; cbv iota;
    destruct (Z.eqb_spec final0 InvalidGenomeLocation) as [H0 | H0];
    destruct (Z.eqb_spec final1 InvalidGenomeLocation) as [H1 | H1];
    repeat split; intros; try lia; try contradiction.
Qed.

Lemma commit_in_location_order_witness :
  commitLocation (-1) 0 700 300 = 300 /\
  commitLocation (-1) 1 700 300 = 700 /\
  commitLocation (-1) 0 (-1) 300 = 300 /\
  commitLocation (-1) 1 (-1) 300 = 300.
Proof.
  destruct (commit_in_location_order (-1) 700 300) as (Hboth & _).
  destruct (commit_in_location_order (-1) (-1) 300) as (_ & Hone & _).
  destruct (Hboth ltac:(lia) ltac:(lia)) as [H1 H2].
  destruct (Hone eq_refl) as [H3 H4].
  repeat split; assumption.
Defined.

End WritePairsFacts.

Section SingleOfPairFacts.
Import Int AlignmentResult SimpleReadWriter WritePairs.

Variable genome : Genome.Genome.
Variable InvalidGenomeLocation : Z.

Lemma crossing_mustGiveUpPair (a : PairAttempt) :
  crossesFromLocation genome (plocation a) (paddFrontClipping a) ->
  mustGiveUpPair genome a = true.
Proof.
  unfold crossesFromLocation, mustGiveUpPair.
  destruct (Genome.getContigAtLocation genome
              (i64_add (plocation a) (paddFrontClipping a))) as [nc |].
  - intros [Hother | Hpast].
    + destruct (Genome.ContigPtr_eqb (Some nc) _) eqn:Heq; [| reflexivity].
      apply ContigPtr_eqb_eq in Heq. congruence.
    + destruct (Genome.getContigAtLocation genome (plocation a)) as [oc |];
        [| reflexivity].
      destruct (Genome.ContigPtr_eqb (Some nc) (Some oc)) eqn:Heq;
        [| reflexivity].
      apply ContigPtr_eqb_eq in Heq. injection Heq as <-.
      apply Z.gtb_gt in Hpast. rewrite Hpast. reflexivity.
  - intros _. apply orb_true_r.
Qed.

(** X11.  The loops of [writePairs] over the single alignments of a read
    drop a candidate whose adjustment (not 0) would cross a contig
    boundary, on the affine-gap and on the edit-distance path alike:
    status NotFound, score -1, direction FORWARD, and
    InvalidGenomeLocation as the location to write.  Unlike [writeReads]
    they leave the [location] field of the result, and every other field,
    as it was. *)
Theorem writePairs_drops_crossing_single (a : PairAttempt) :
  paddFrontClipping a <> 0 ->
  crossesFromLocation genome (plocation a) (paddFrontClipping a) ->
  forall redo,
    redo = redoPairAG genome InvalidGenomeLocation \/
    redo = redoPairLV genome InvalidGenomeLocation ->
    exists a',
      adjustPair redo a = Some a' /\
      plocation a' = InvalidGenomeLocation /\
      status (presult a') = NotFound /\
      score (presult a') = -1 /\
      direction (presult a') = FORWARD /\
      location (presult a') = location (presult a) /\
      presult a' = giveUpPair (presult a) /\
      pread a' = pread a.
Proof.
  intros Hafc Hcross redo Hredo.
  pose proof (crossing_mustGiveUpPair a Hcross) as Hmust.
  exists (dropPair InvalidGenomeLocation a).
  split.
  - unfold adjustPair. rewrite (proj2 (Z.eqb_neq _ _) Hafc).
    destruct Hredo as [-> | ->];
      [unfold redoPairAG | unfold redoPairLV]; rewrite Hmust; reflexivity.
  - repeat split.
Qed.

End SingleOfPairFacts.

Section SingleOfPairRuns.
Import Int AlignmentResult SimpleReadWriter WritePairs.

Lemma writePairs_drops_crossing_single_witness :
  exists a',
    adjustPair (redoPairLV Samples.twoContigs (-1))
      (startSingle (-1) Samples.aRead (Samples.candidate 80 Samples.half)
         (Samples.candidate 80 Samples.half) 95)
    = Some a' /\
    plocation a' = -1 /\
    status (presult a') = NotFound /\
    location (presult a') = 1010.
Proof.
  destruct (writePairs_drops_crossing_single Samples.twoContigs (-1)
              (startSingle (-1) Samples.aRead
                 (Samples.candidate 80 Samples.half)
                 (Samples.candidate 80 Samples.half) 95))
    with (redo := redoPairLV Samples.twoContigs (-1))
    as (a' & H1 & H2 & H3 & _ & _ & H6 & _).
  - cbn. discriminate.
  - unfold crossesFromLocation. cbn. right. reflexivity.
  - right. reflexivity.
  - exists a'. repeat split; assumption.
Defined.

(** An adjustment that stays inside the contig: the affine-gap loop of
    [writePairs] adds it to the location (a deletion), as the
    edit-distance loop does. *)
Lemma adjustPair_runs :
  option_map plocation
    (adjustPair (redoPairAG Samples.twoContigs (-1))
       (startSingle (-1) Samples.aRead (Samples.candidate 80 Samples.half)
          (Samples.candidate 80 Samples.half) 5))
  = Some 1015 /\
  option_map plocation
    (adjustPair (redoPairLV Samples.twoContigs (-1))
       (startSingle (-1) Samples.aRead (Samples.candidate 80 Samples.half)
          (Samples.candidate 80 Samples.half) 0))
  = None.
Proof. split; reflexivity. Qed.

End SingleOfPairRuns.

(** ** The watchdog over a period *)

Section WatchdogRunsFacts.
Import Int SimpleReadWriter WatchdogRuns.

Lemma checkIfTooSlow_counts (now : Z) (w : Watchdog) :
  killIfTooSlow w = true ->
  in_i64 (lastTooSlowCheck w + tooSlowCheckPeriod) ->
  in_i64 (writesSinceLastTooSlowCheck w + 1) ->
  now < lastTooSlowCheck w + tooSlowCheckPeriod ->
  checkIfTooSlow now w
  = Returns {| killIfTooSlow := true;
               lastTooSlowCheck := lastTooSlowCheck w;
               writesSinceLastTooSlowCheck :=
                 writesSinceLastTooSlowCheck w + 1 |}.
Proof.
  intros Hkill Hlast Hwrites Hnow.
  unfold checkIfTooSlow, i64_add.
  rewrite Hkill, (to_i64_id _ Hlast), (to_i64_id _ Hwrites).
  destruct (Z.leb_spec (lastTooSlowCheck w + tooSlowCheckPeriod) now);
    [lia | reflexivity].
Qed.

(** X12.  While a check period lasts the watchdog only counts: calls at
    times before [lastTooSlowCheck] plus five minutes all return, leave
    [lastTooSlowCheck] alone and add one each to the counter.  The call
    that then finds the period over ends the process exactly when the
    counter, so advanced, is below 300000. *)
Theorem checkIfTooSlow_counts_writes_of_a_period
    (times : list Z) (later : Z) (w : Watchdog) :
  killIfTooSlow w = true ->
  lastTooSlowCheck w <> 0 ->
  in_i64 (lastTooSlowCheck w + tooSlowCheckPeriod) ->
  - 2 ^ 63 <= writesSinceLastTooSlowCheck w ->
  writesSinceLastTooSlowCheck w + Z.of_nat (length times) < 2 ^ 63 ->
  Forall (fun now => now < lastTooSlowCheck w + tooSlowCheckPeriod) times ->
  lastTooSlowCheck w + tooSlowCheckPeriod <= later ->
  let counted :=
    {| killIfTooSlow := true;
       lastTooSlowCheck := lastTooSlowCheck w;
       writesSinceLastTooSlowCheck :=
         writesSinceLastTooSlowCheck w + Z.of_nat (length times) |} in
  checkIfTooSlowAt times w = Returns counted /\
  (checkIfTooSlow later counted = SoftExit 1
   <-> writesSinceLastTooSlowCheck w + Z.of_nat (length times) < 300000).
Proof.
  intros Hkill Hlast Hrange Hlow Hhigh Hall Hlater. cbv zeta. split.
  - clear Hlater. revert w Hkill Hlast Hrange Hlow Hhigh Hall.
    induction times as [| now rest IH]; intros w Hkill Hlast Hrange Hlow Hhigh Hall.
    + cbn [checkIfTooSlowAt length]. f_equal.
      destruct w as [k l n]. cbn in *. subst k. f_equal. lia.
    + apply Forall_cons in Hall as [Hnow Hrest].
      cbn [checkIfTooSlowAt length] in *.
      rewrite checkIfTooSlow_counts
        by first [assumption | unfold in_i64; lia].
      assert (Hnext := IH {| killIfTooSlow := true;
                             lastTooSlowCheck := lastTooSlowCheck w;
                             writesSinceLastTooSlowCheck :=
                               writesSinceLastTooSlowCheck w + 1 |}).
      cbn [killIfTooSlow lastTooSlowCheck writesSinceLastTooSlowCheck]
        in Hnext.
      rewrite Hnext by first [assumption | reflexivity | lia].
      do 2 f_equal. lia.
  - unfold checkIfTooSlow, i64_add.
    cbn [killIfTooSlow lastTooSlowCheck writesSinceLastTooSlowCheck].
    rewrite (to_i64_id _ Hrange).
    destruct (Z.leb_spec (lastTooSlowCheck w + tooSlowCheckPeriod) later);
      [| lia].
    destruct (Z.eqb_spec (lastTooSlowCheck w) 0); [contradiction |].
    cbn [negb andb]. unfold tooSlowCheckMinReadsPerCheckPeriod.
    change (5 * 60 * 1000) with 300000.
    destruct (Z.ltb_spec (writesSinceLastTooSlowCheck w
                          + Z.of_nat (length times)) 300000);
      split; intros H'; try reflexivity; try lia; discriminate H'.
Qed.

Lemma checkIfTooSlow_counts_writes_of_a_period_witness :
  checkIfTooSlowAt [1500; 2000; 2000] (Samples.watchdog 1000 0)
  = Returns (Samples.watchdog 1000 3).
Proof.
  refine (proj1 (checkIfTooSlow_counts_writes_of_a_period
                   [1500; 2000; 2000] 400000 (Samples.watchdog 1000 0)
                   eq_refl _ _ _ _ _ _)).
  - cbn. discriminate.
  - vm_compute. split; [intros H0; discriminate H0 | reflexivity].
  - cbn. lia.
  - cbn. lia.
  - unfold tooSlowCheckPeriod. cbn. repeat constructor; lia.
  - unfold tooSlowCheckPeriod. cbn. lia.
Defined.

End WatchdogRunsFacts.

(** ** writeHeader *)

Section WriteHeaderFacts.
Import Int WriteHeader.

Variable formatHeader : Z -> option (list byte).
Variable getBuffer : nat -> option Z.

Local Abbreviation fitHeader := (fitHeader formatHeader).
Local Abbreviation copyHeader := (copyHeader getBuffer).
Local Abbreviation writeHeader := (writeHeader formatHeader getBuffer).

Lemma fitHeader_fits (fuel : nat) :
  forall size isLocal size' isLocal' header,
    fitHeader fuel size isLocal = Some (size', isLocal', header) ->
    formatHeader size' = Some header /\
    (isLocal' = false -> isLocal = false /\ size' = size).
Proof.
  induction fuel as [| fuel IH]; intros size l size' l' header Hrun.
  - discriminate Hrun.
  - cbn [WriteHeader.fitHeader] in Hrun.
    destruct (formatHeader size) as [h |] eqn:Hfit.
    + injection Hrun as <- <- <-. split; [exact Hfit | intros ->; split; reflexivity].
    + apply IH in Hrun as [H1 H2]. split; [exact H1 |].
      intros Hl. destruct (H2 Hl) as [Hcontra _]. discriminate Hcontra.
Qed.

Lemma copyHeader_pieces (fuel : nat) :
  forall rest size k pieces ok out,
    copyHeader fuel rest size k pieces = Some (ok, out) ->
    exists sent unsent,
      rest = sent ++ unsent /\
      concat out = concat pieces ++ sent /\
      (ok = true -> unsent = []).
Proof.
  induction fuel as [| fuel IH]; intros rest size k pieces ok out Hrun.
  - discriminate Hrun.
  - cbn [WriteHeader.copyHeader] in Hrun.
    destruct (Z.gtb_spec (Z.of_nat (length rest)) 0) as [Hpos | Hzero].
    + set (n := Z.to_nat (min_size (Z.of_nat (length rest)) size)) in *.
      destruct (getBuffer k) as [size' |].
      * apply IH in Hrun as (sent & unsent & Hsplit & Hout & Hok).
        exists (take n rest ++ sent), unsent.
        split; [rewrite <- app_assoc, <- Hsplit, take_drop; reflexivity |].
        split; [| exact Hok].
        rewrite Hout, concat_app. cbn [concat].
        rewrite app_nil_r, app_assoc. reflexivity.
      * injection Hrun as <- <-.
        exists (take n rest), (drop n rest).
        split; [symmetry; apply take_drop |].
        split; [| discriminate].
        rewrite concat_app. cbn [concat]. rewrite app_nil_r. reflexivity.
    + injection Hrun as <- <-.
      assert (rest = []) by (destruct rest; [reflexivity | cbn in Hzero; lia]).
      subst rest. exists [], [].
      split; [reflexivity |]. split; [rewrite app_nil_r; reflexivity |].
      reflexivity.
Qed.

(** X13.  What [writeHeader] hands to the writer.  When it returns true,
    the pieces it has advanced, in order, make up exactly the header that
    the formatter produced (in the writer's first buffer, or in a local
    buffer copied out piece by piece).  When it returns false, either no
    buffer was to be had and nothing was advanced, or the pieces advanced
    are a beginning of the header. *)
Theorem writeHeader_hands_over_the_header
    (fuel : nat) (firstBuffer : option Z) (ok : bool)
    (pieces : list (list byte)) :
  (forall size header,
     firstBuffer = Some size -> formatHeader size = Some header ->
     Z.of_nat (length header) < 2 ^ 32) ->
  writeHeader fuel firstBuffer = Some (ok, pieces) ->
  (ok = true ->
   exists size header,
     formatHeader size = Some header /\ concat pieces = header) /\
  (ok = false ->
   (firstBuffer = None /\ pieces = []) \/
   exists size header unsent,
     formatHeader size = Some header /\ header = concat pieces ++ unsent).
Proof.
  intros Hsmall Hrun. unfold WriteHeader.writeHeader in Hrun.
  destruct firstBuffer as [size0 |].
  - destruct (fitHeader fuel size0 false) as [[[size isLocal] header] |] eqn:Hfit;
      [| discriminate].
    destruct (fitHeader_fits _ _ _ _ _ _ Hfit) as [Hheader Hdirect].
    destruct isLocal.
    + apply copyHeader_pieces in Hrun as (sent & unsent & Hsplit & Hout & Hok).
      cbn [concat app] in Hout. split.
      * intros Htrue. exists size, header. split; [exact Hheader |].
        rewrite (Hok Htrue), app_nil_r in Hsplit. congruence.
      * intros _. right. exists size, header, unsent.
        split; [exact Hheader | congruence].
    + injection Hrun as <- <-.
      destruct (Hdirect eq_refl) as [_ ->].
      split; [| discriminate].
      intros _. exists size0, header. split; [exact Hheader |].
      cbn [concat]. rewrite app_nil_r.
      pose proof (Hsmall size0 header eq_refl Hheader) as Hlen.
      unfold to_u32. rewrite Z.mod_small by lia.
      rewrite Nat2Z.id. apply firstn_all.
  - injection Hrun as <- <-. split; [discriminate |].
    intros _. left. split; reflexivity.
Qed.

Lemma fitHeader_ends (needed : Z) (fuel : nat) :
  (forall size, needed <= size < 2 ^ 64 -> formatHeader size <> None) ->
  needed <= 2 ^ 63 ->
  forall size isLocal,
    0 < size < 2 ^ 64 ->
    needed <= size * 2 ^ (Z.of_nat fuel - 1) ->
    (0 < fuel)%nat ->
    exists r, fitHeader fuel size isLocal = Some r.
Proof.
  intros Hfits Hneeded.
  induction fuel as [| fuel IH]; intros size isLocal Hsize Hpow Hfuel; [lia |].
  cbn [WriteHeader.fitHeader].
  destruct (formatHeader size) as [h |] eqn:Hfit; [eexists; reflexivity |].
  assert (Hless : size < needed).
  { destruct (Z_lt_le_dec size needed) as [H | H]; [exact H |].
    exfalso. apply (Hfits size); [lia | exact Hfit]. }
  destruct fuel as [| fuel'].
  - cbn in Hpow. lia.
  - unfold to_u64. rewrite Z.mod_small by lia.
    apply IH; [lia | | lia].
    replace (Z.of_nat (S (S fuel')) - 1) with (Z.succ (Z.of_nat (S fuel') - 1))
      in Hpow by lia.
    rewrite Z.pow_succ_r in Hpow by lia. lia.
Qed.

Lemma copyHeader_ends (fuel : nat) :
  (forall k, exists size, getBuffer k = Some size /\ 0 < size) ->
  forall rest size k pieces,
    (length rest < fuel)%nat -> 0 < size ->
    exists out, copyHeader fuel rest size k pieces = Some (true, out).
Proof.
  intros Hbuffers.
  induction fuel as [| fuel IH]; intros rest size k pieces Hlen Hsize; [lia |].
  cbn [WriteHeader.copyHeader].
  destruct (Z.gtb_spec (Z.of_nat (length rest)) 0) as [Hpos | Hzero];
    [| eexists; reflexivity].
  destruct (Hbuffers k) as (size' & -> & Hsize').
  apply IH; [| exact Hsize'].
  rewrite length_drop. unfold min_size.
  destruct (Z.of_nat (length rest) <? size); lia.
Qed.

(** X14.  [writeHeader] comes to an end and returns true when the
    writer's buffers are never refused and never empty and the formatter
    accepts every buffer of at least [needed] bytes: the doubling of the
    local buffer reaches [needed] within 64 steps, and every piece copied
    out makes the rest shorter. *)
Theorem writeHeader_ends (needed longest : Z) (fuel : nat) (size0 : Z) :
  (forall size, needed <= size < 2 ^ 64 -> formatHeader size <> None) ->
  (forall size header,
     formatHeader size = Some header -> Z.of_nat (length header) <= longest) ->
  (forall k, exists size, getBuffer k = Some size /\ 0 < size) ->
  needed <= 2 ^ 63 ->
  0 < size0 < 2 ^ 64 ->
  (65 <= fuel)%nat -> longest < Z.of_nat fuel ->
  exists pieces, writeHeader fuel (Some size0) = Some (true, pieces).
Proof.
  intros Hfits Hlongest Hbuffers Hneeded Hsize Hfuel Hlong.
  unfold WriteHeader.writeHeader.
  destruct (fitHeader_ends needed fuel Hfits Hneeded size0 false Hsize)
    as [[[size isLocal] header] Hfit]; [| lia |].
  { assert (H64 : 2 ^ 64 <= 2 ^ (Z.of_nat fuel - 1))
      by (apply Z.pow_le_mono_r; lia).
    nia. }
  rewrite Hfit.
  destruct (fitHeader_fits _ _ _ _ _ _ Hfit) as [Hheader _].
  destruct isLocal; [| eexists; reflexivity].
  apply copyHeader_ends; [exact Hbuffers | | lia].
  specialize (Hlongest size header Hheader). lia.
Qed.

(** With an empty first buffer that the header does not fit in, the
    doubling never leaves size 0: the first loop has no end. *)
Lemma fitHeader_empty_buffer (fuel : nat) (isLocal : bool) :
  formatHeader 0 = None -> fitHeader fuel 0 isLocal = None.
Proof.
  intros Hnone. revert isLocal.
  induction fuel as [| fuel IH]; intros isLocal; [reflexivity |].
  cbn [WriteHeader.fitHeader]. rewrite Hnone. apply IH.
Qed.

End WriteHeaderFacts.

Section WriteHeaderRuns.
Import Int WriteHeader.
Local Open Scope byte_scope.

Lemma writeHeader_hands_over_the_header_witness :
  exists size header,
    MoreSamples.formatHeader size = Some header /\
    concat [["@"; "H"]; ["D"; "009"]; ["010"]] = header.
Proof.
  refine (proj1 (writeHeader_hands_over_the_header
                   MoreSamples.formatHeader MoreSamples.getBuffer
                   4 (Some 2%Z) true [["@"; "H"]; ["D"; "009"]; ["010"]]
                   _ eq_refl) eq_refl).
  intros size header Hsize Hfit. injection Hsize as <-. discriminate Hfit.
Defined.

Lemma writeHeader_ends_witness :
  exists pieces,
    writeHeader MoreSamples.formatHeader MoreSamples.getBuffer 65 (Some 2%Z)
    = Some (true, pieces).
Proof.
  apply (writeHeader_ends MoreSamples.formatHeader MoreSamples.getBuffer
           5 5 65 2).
  - intros size Hsize. unfold MoreSamples.formatHeader.
    destruct (Z.leb_spec 5 size); [discriminate | lia].
  - intros size h. unfold MoreSamples.formatHeader.
    destruct (5 <=? size)%Z; [| discriminate].
    intros Hh. injection Hh as <-. cbn. lia.
  - intros k. exists 2%Z. split; [reflexivity | lia].
  - lia.
  - lia.
  - lia.
  - lia.
Defined.

(** A header that fits the first buffer goes out in one piece; a header
    copied out of a local buffer is reported as not written when the
    writer has no buffer left after the last piece, although every byte of
    it has been advanced. *)
Lemma writeHeader_runs :
  writeHeader MoreSamples.formatHeader MoreSamples.getBuffer 4 (Some 8%Z)
  = Some (true, [MoreSamples.header]) /\
  writeHeader MoreSamples.formatHeader MoreSamples.getBufferThrice 4 (Some 2%Z)
  = Some (false, [["@"; "H"]; ["D"; "009"]; ["010"]]) /\
  writeHeader MoreSamples.formatHeader MoreSamples.getBuffer 4 None
  = Some (false, []).
Proof. repeat split; reflexivity. Qed.

End WriteHeaderRuns.

(** ** ReadFASTAGenome: sizes and counts *)

Section FastaSizes.
Import Int FASTA FastaFile.
Import SimpleReadWriter (Outcome, Returns, SoftExit).
Local Open Scope byte_scope.

Variable pieceNameTerminatorCharacters : option (list byte).
Variable spaceIsAPieceNameTerminator : bool.
Variable chromosomePaddingSize : Z.

Local Abbreviation readLine :=
  (readLine pieceNameTerminatorCharacters spaceIsAPieceNameTerminator
            chromosomePaddingSize).
Local Abbreviation readLines :=
  (readLines pieceNameTerminatorCharacters spaceIsAPieceNameTerminator
             chromosomePaddingSize).

Lemma length_cut_at (ch : byte) (s : list byte) :
  (length (cut_at ch s) <= length s)%nat.
Proof.
  induction s as [| c s IH]; cbn [cut_at length]; [lia |].
  destruct (Byte.eqb c ch); cbn [length]; lia.
Qed.

Lemma length_sequenceLine (lineBuffer : list byte) :
  (length (c_str (sequenceLine (c_str lineBuffer))) <= length lineBuffer)%nat.
Proof.
  unfold c_str at 1. etransitivity; [apply length_cut_at |].
  unfold sequenceLine. rewrite !length_map.
  etransitivity; [apply length_cut_at | apply length_cut_at].
Qed.

Lemma countStartContig_app (cs ds : list GenomeCall) :
  countStartContig (cs ++ ds) = countStartContig cs + countStartContig ds.
Proof.
  induction cs as [| c cs IH]; [reflexivity |].
  destruct c; cbn [countStartContig app]; rewrite IH; lia.
Qed.

Lemma countMarkALT_app (cs ds : list GenomeCall) :
  countMarkALT (cs ++ ds) = countMarkALT cs + countMarkALT ds.
Proof.
  induction cs as [| c cs IH]; [reflexivity |].
  destruct c; cbn [countMarkALT app]; rewrite IH; lia.
Qed.

Lemma length_padding :
  0 <= chromosomePaddingSize ->
  Z.of_nat (length (c_str (paddingBuffer chromosomePaddingSize)))
  = chromosomePaddingSize.
Proof.
  intros Hpad. rewrite c_str_paddingBuffer. unfold paddingBuffer.
  rewrite length_replicate. lia.
Qed.

Lemma readLine_sizes (st st' : Reader) (lineBuffer : list byte) :
  0 <= chromosomePaddingSize ->
  readLine st lineBuffer = Returns st' ->
  let isName := Byte.eqb (first_char (c_str lineBuffer)) ">" in
  started st' = started st + (if isName then 1 else 0) /\
  closed st' = closed st + (if isName then 1 else 0) /\
  appended st'
  <= appended st
     + (if isName then chromosomePaddingSize
        else Z.of_nat (length lineBuffer)).
Proof.
  intros Hpad. cbv zeta. unfold FASTA.readLine, started, closed, appended.
  destruct (Byte.eqb (first_char (c_str lineBuffer)) ">").
  - intros Hret. injection Hret as <-. cbn [calls inAContig call].
    rewrite !countStartContig_app, !countMarkALT_app, !genomeBody_app,
            !length_app.
    cbn [countStartContig countMarkALT genomeBody length app].
    rewrite app_nil_r. pose proof (length_padding Hpad) as Hlen.
    destruct (inAContig st); cbn [calls call];
      rewrite ?countStartContig_app, ?countMarkALT_app, ?genomeBody_app,
              ?length_app;
      cbn [countStartContig countMarkALT genomeBody length app]; lia.
  - destruct (inAContig st) eqn:Hin; cbn [negb]; [| discriminate].
    intros Hret. injection Hret as <-. cbn [calls inAContig call].
    rewrite !countStartContig_app, !countMarkALT_app, !genomeBody_app,
            !length_app, Hin.
    cbn [countStartContig countMarkALT genomeBody length app].
    rewrite app_nil_r. pose proof (length_sequenceLine lineBuffer). lia.
Qed.

Lemma readLines_sizes (rest : list (list byte)) :
  0 <= chromosomePaddingSize ->
  forall st st' n,
    readLines st rest = Returns st' ->
    0 <= n -> n + Z.of_nat (length rest) < 2 ^ 32 ->
    n <= countChromosomesFrom n rest <= n + Z.of_nat (length rest) /\
    started st' = started st + (countChromosomesFrom n rest - n) /\
    closed st' = closed st + (countChromosomesFrom n rest - n) /\
    appended st'
    <= appended st + bytesRead rest
       + (countChromosomesFrom n rest - n) * chromosomePaddingSize.
Proof.
  intros Hpad.
  induction rest as [| lineBuffer rest IH]; intros st st' n Hrun Hn Hlen.
  - injection Hrun as <-. cbn [countChromosomesFrom bytesRead length]. lia.
  - cbn [FASTA.readLines] in Hrun.
    destruct (readLine st lineBuffer) as [st1 | code] eqn:Hline;
      [| discriminate].
    destruct (readLine_sizes st st1 lineBuffer Hpad Hline) as (S1 & C1 & A1).
    cbn [countChromosomesFrom bytesRead length] in *.
    destruct (Byte.eqb (first_char (c_str lineBuffer)) ">").
    + assert (Hu : u32_add n 1 = n + 1)
        by (unfold u32_add, to_u32; apply Z.mod_small; lia).
      rewrite Hu.
      destruct (IH st1 st' (n + 1) Hrun ltac:(lia) ltac:(lia))
        as (N2 & S2 & C2 & A2).
      split; [lia |]. split; [lia |]. split; [lia |]. nia.
    + destruct (IH st1 st' n Hrun Hn ltac:(lia)) as (N2 & S2 & C2 & A2).
      split; [lia |]. split; [lia |]. split; [lia |]. nia.
Qed.

(** X15.  The genome that [ReadFASTAGenome] creates is large enough for
    what it then appends: for a file of at most [fileSize] bytes, the
    bases passed to [addData], padding included, number at most
    [fileSize + (nChromosomes + 1) * chromosomePaddingSize], the size the
    genome was created with; and as many contigs are started, and as many
    closed with [MarkALTContigIfAppropriate], as the first pass has
    counted. *)
Theorem ReadFASTAGenome_fits_its_genome
    (lines : list (list byte)) (cs : list GenomeCall) (fileSize : Z) :
  ReadFASTAGenome pieceNameTerminatorCharacters spaceIsAPieceNameTerminator
                  chromosomePaddingSize (Some lines) = Returns (Some cs) ->
  0 <= chromosomePaddingSize < 2 ^ 32 ->
  Z.of_nat (length lines) < 2 ^ 32 - 1 ->
  bytesRead lines <= fileSize ->
  fileSize + (Z.of_nat (length lines) + 1) * chromosomePaddingSize < 2 ^ 64 ->
  countStartContig cs = countChromosomes lines /\
  countMarkALT cs = countChromosomes lines /\
  Z.of_nat (length (genomeBody cs))
  <= genomeCapacity fileSize (countChromosomes lines) chromosomePaddingSize.
Proof.
  intros Hrun Hpad Hlines Hbytes Hsize.
  unfold FASTA.ReadFASTAGenome in Hrun.
  match type of Hrun with
  | context [FASTA.readLines _ _ _ ?st0 lines] =>
      destruct (readLines st0 lines) as [st | code] eqn:Hlines_run;
        [| discriminate];
      destruct (readLines_sizes lines ltac:(lia) st0 st 0 Hlines_run
                  ltac:(lia) ltac:(lia)) as (N & S & C & A)
  end.
  unfold started, closed, appended in S, C, A. cbn [calls inAContig] in S, C, A.
  cbn [countStartContig countMarkALT genomeBody length] in S, C, A.
  fold (countChromosomes lines) in N, S, C, A.
  destruct (inAContig st) eqn:Hin; cbn [negb] in Hrun; [| discriminate].
  injection Hrun as <-. cbn [calls call].
  rewrite !countStartContig_app, !countMarkALT_app, !genomeBody_app,
          !length_app.
  cbn [countStartContig countMarkALT genomeBody length app].
  rewrite app_nil_r. pose proof (length_padding ltac:(lia)) as Hlen.
  assert (Hbytes0 : 0 <= bytesRead lines).
  { clear. induction lines as [| l ls IH]; cbn [bytesRead]; lia. }
  split; [lia |]. split; [lia |].
  unfold genomeCapacity, u32_add, to_u32, to_u64.
  rewrite (Z.mod_small (countChromosomes lines + 1)) by lia.
  rewrite (Z.mod_small chromosomePaddingSize) by lia.
  assert (Hprod : 0 <= (countChromosomes lines + 1) * chromosomePaddingSize
                  <= (Z.of_nat (length lines) + 1) * chromosomePaddingSize)
    by nia.
  rewrite (Z.mod_small ((countChromosomes lines + 1) * chromosomePaddingSize))
    by lia.
  rewrite Z.mod_small by lia.
  nia.
Qed.

End FastaSizes.

Section FastaSizesRuns.
Import Int FASTA FastaFile.
Import SimpleReadWriter (Outcome, Returns, SoftExit).

Lemma ReadFASTAGenome_fits_its_genome_witness :
  exists cs,
    ReadFASTAGenome None true 3 (Some Samples.fasta) = Returns (Some cs) /\
    countStartContig cs = countChromosomes Samples.fasta /\
    Z.of_nat (length (genomeBody cs))
    <= genomeCapacity 24 (countChromosomes Samples.fasta) 3.
Proof.
  eexists. split; [exact sample_fasta_runs |].
  destruct (ReadFASTAGenome_fits_its_genome None true 3 Samples.fasta _ 24
              sample_fasta_runs) as (H1 & _ & H3).
  - lia.
  - cbn. lia.
  - cbn. lia.
  - cbn. lia.
  - split; [exact H1 | exact H3].
Defined.

End FastaSizesRuns.

(** ** ReadFASTAGenome: contig names *)

Section FastaNames.
Import Int FASTA FastaFile.
Import SimpleReadWriter (Outcome, Returns, SoftExit).
Local Open Scope byte_scope.

Variable pieceNameTerminatorCharacters : option (list byte).
Variable spaceIsAPieceNameTerminator : bool.
Variable chromosomePaddingSize : Z.

Local Abbreviation readLine :=
  (readLine pieceNameTerminatorCharacters spaceIsAPieceNameTerminator
            chromosomePaddingSize).
Local Abbreviation readLines :=
  (readLines pieceNameTerminatorCharacters spaceIsAPieceNameTerminator
             chromosomePaddingSize).
Local Abbreviation contigName :=
  (contigName pieceNameTerminatorCharacters spaceIsAPieceNameTerminator).
Local Abbreviation named :=
  (named pieceNameTerminatorCharacters spaceIsAPieceNameTerminator).

Lemma cut_at_prefix (ch : byte) (s : list byte) :
  exists t, s = cut_at ch s ++ t.
Proof.
  induction s as [| c s [t IH]]; [exists []; reflexivity |].
  cbn [cut_at]. destruct (Byte.eqb c ch).
  - exists (c :: s). reflexivity.
  - exists t. cbn [app]. rewrite <- IH. reflexivity.
Qed.

Lemma cut_at_In (ch x : byte) (s : list byte) :
  In x (cut_at ch s) -> In x s /\ x <> ch.
Proof.
  induction s as [| c s IH]; cbn [cut_at]; [intros [] |].
  destruct (Byte.eqb c ch) eqn:Hc; [intros [] |].
  intros [<- | Hin].
  - split; [left; reflexivity |]. intros ->.
    rewrite (proj2 (byte_eqb_eq ch ch) eq_refl) in Hc. discriminate Hc.
  - destruct (IH Hin). split; [right |]; assumption.
Qed.

Lemma foldl_cut_prefix (ts s : list byte) :
  exists t, s = foldl (fun s t => cut_at t s) s ts ++ t.
Proof.
  revert s. induction ts as [| t0 ts IH]; intros s; cbn [foldl].
  - exists []. rewrite app_nil_r. reflexivity.
  - destruct (IH (cut_at t0 s)) as [t1 H1].
    destruct (cut_at_prefix t0 s) as [t2 H2].
    exists (t1 ++ t2). rewrite app_assoc, <- H1. exact H2.
Qed.

Lemma foldl_cut_In (ts s : list byte) (x : byte) :
  In x (foldl (fun s t => cut_at t s) s ts) -> In x s /\ ~ In x ts.
Proof.
  revert s. induction ts as [| t0 ts IH]; intros s; cbn [foldl].
  - intros H. split; [exact H | intros []].
  - intros H. apply IH in H as [H Hts]. apply cut_at_In in H as [H Hne].
    split; [exact H |]. intros [-> | Hin]; [apply Hne; reflexivity | auto].
Qed.

(** The name cut out of a line that starts with '>': a beginning of what
    follows the '>' and free of every character it is cut at. *)
Lemma contigName_clean (line : list byte) :
  (exists t, tail line = contigName line ++ t) /\
  forall x, In x (contigName line) ->
    In x (tail line) /\
    x <> "010" /\ x <> "013" /\
    (spaceIsAPieceNameTerminator = true -> x <> " " /\ x <> "009") /\
    (forall terminators,
       pieceNameTerminatorCharacters = Some terminators ->
       ~ In x (c_str terminators)).
Proof.
  unfold FASTA.contigName.
  set (n1 := match pieceNameTerminatorCharacters with
             | Some terminators =>
                 foldl (fun s t => cut_at t s) (tail line) (c_str terminators)
             | None => tail line
             end).
  set (n2 := if spaceIsAPieceNameTerminator
             then cut_at "009" (cut_at " " n1) else n1).
  assert (P1 : exists t, tail line = n1 ++ t).
  { subst n1. destruct pieceNameTerminatorCharacters;
      [apply foldl_cut_prefix | exists []; rewrite app_nil_r; reflexivity]. }
  assert (P2 : exists t, n1 = n2 ++ t).
  { subst n2. destruct spaceIsAPieceNameTerminator.
    - destruct (cut_at_prefix " " n1) as [t1 H1].
      destruct (cut_at_prefix "009" (cut_at " " n1)) as [t2 H2].
      exists (t2 ++ t1). rewrite app_assoc, <- H2. exact H1.
    - exists []. rewrite app_nil_r. reflexivity. }
  split.
  - destruct P1 as [t1 H1], P2 as [t2 H2].
    destruct (cut_at_prefix "010" n2) as [t3 H3].
    destruct (cut_at_prefix "013" (cut_at "010" n2)) as [t4 H4].
    exists (t4 ++ t3 ++ t2 ++ t1).
    rewrite H1, H2 at 1. rewrite H3 at 1. rewrite H4 at 1.
    rewrite <- !app_assoc. reflexivity.
  - intros x Hx.
    apply cut_at_In in Hx as [Hx Hcr]. apply cut_at_In in Hx as [Hx Hlf].
    assert (Hn1 : In x n1 /\
                  (spaceIsAPieceNameTerminator = true -> x <> " " /\ x <> "009")).
    { subst n2. destruct spaceIsAPieceNameTerminator.
      - apply cut_at_In in Hx as [Hx Htab]. apply cut_at_In in Hx as [Hx Hsp].
        split; [exact Hx | intros _; split; assumption].
      - split; [exact Hx | discriminate]. }
    destruct Hn1 as [Hn1 Hspace].
    assert (Hline : In x (tail line) /\
                    forall terminators,
                      pieceNameTerminatorCharacters = Some terminators ->
                      ~ In x (c_str terminators)).
    { subst n1. destruct pieceNameTerminatorCharacters as [ts |].
      - apply foldl_cut_In in Hn1 as [Hin Hts].
        split; [exact Hin |]. intros ts' Hts'. injection Hts' as <-. exact Hts.
      - split; [exact Hn1 | discriminate]. }
    destruct Hline as [Hline Hterm].
    split; [exact Hline |]. split; [exact Hlf |]. split; [exact Hcr |].
    split; [exact Hspace | exact Hterm].
Qed.

Lemma readLine_named (lines : list (list byte)) (st st' : Reader)
    (lineBuffer : list byte) :
  In lineBuffer lines ->
  Forall (named lines) (calls st) ->
  readLine st lineBuffer = Returns st' ->
  Forall (named lines) (calls st').
Proof.
  intros Hin Hst. unfold FASTA.readLine.
  destruct (Byte.eqb (first_char (c_str lineBuffer)) ">") eqn:Hhead.
  - intros Hret. injection Hret as <-. cbn [calls call].
    apply Forall_app. split; [apply Forall_app; split |].
    + destruct (inAContig st); cbn [calls call]; [| exact Hst].
      apply Forall_app. split; [exact Hst | constructor; [exact I | constructor]].
    + constructor; [exact I | constructor].
    + constructor; [| constructor].
      exists lineBuffer. repeat split; assumption.
  - destruct (inAContig st); cbn [negb]; [| discriminate].
    intros Hret. injection Hret as <-. cbn [calls call].
    apply Forall_app. split; [exact Hst | constructor; [exact I | constructor]].
Qed.

Lemma readLines_named (lines rest : list (list byte)) :
  forall st st',
    (forall lineBuffer, In lineBuffer rest -> In lineBuffer lines) ->
    Forall (named lines) (calls st) ->
    readLines st rest = Returns st' ->
    Forall (named lines) (calls st').
Proof.
  induction rest as [| lineBuffer rest IH]; intros st st' Hsub Hst Hrun.
  - injection Hrun as <-. exact Hst.
  - cbn [FASTA.readLines] in Hrun.
    destruct (readLine st lineBuffer) as [st1 | code] eqn:Hline;
      [| discriminate].
    apply (IH st1 st'); [| | exact Hrun].
    + intros lb Hlb. apply Hsub. right. exact Hlb.
    + eapply readLine_named; [| exact Hst | exact Hline].
      apply Hsub. left. reflexivity.
Qed.

(** X16.  Every name that [ReadFASTAGenome] passes to [startContig] comes
    from a line of the file that starts with '>': it is a beginning of
    what follows the '>', and holds no newline, no carriage return and no
    NUL, no space or tab when [spaceIsAPieceNameTerminator] is set, and
    none of the [pieceNameTerminatorCharacters]. *)
Theorem contig_names_are_clean
    (lines : list (list byte)) (cs : list GenomeCall) (name : list byte) :
  ReadFASTAGenome pieceNameTerminatorCharacters spaceIsAPieceNameTerminator
                  chromosomePaddingSize (Some lines) = Returns (Some cs) ->
  In (startContig name) cs ->
  (exists lineBuffer rest,
     In lineBuffer lines /\
     c_str lineBuffer = ">" :: name ++ rest) /\
  forall x, In x name ->
    x <> "010" /\ x <> "013" /\ x <> "000" /\
    (spaceIsAPieceNameTerminator = true -> x <> " " /\ x <> "009") /\
    (forall terminators,
       pieceNameTerminatorCharacters = Some terminators ->
       ~ In x (c_str terminators)).
Proof.
  intros Hrun Hin. unfold FASTA.ReadFASTAGenome in Hrun.
  match type of Hrun with
  | context [FASTA.readLines _ _ _ ?st0 lines] =>
      destruct (readLines st0 lines) as [st | code] eqn:Hlines;
        [| discriminate];
      assert (Hst : Forall (named lines) (calls st))
        by (eapply (readLines_named lines lines st0 st);
            [auto | constructor | exact Hlines])
  end.
  destruct (inAContig st); cbn [negb] in Hrun; [| discriminate].
  injection Hrun as <-. cbn [calls call] in Hin.
  rewrite !in_app_iff in Hin. cbn [In] in Hin.
  assert (Hcall : In (startContig name) (calls st)).
  { decompose [or] Hin; try discriminate; try contradiction; assumption. }
  rewrite Forall_forall in Hst.
  assert (Hnamed : named lines (startContig name)).
  { apply Hst. apply list_elem_of_In. exact Hcall. }
  destruct Hnamed as (lineBuffer & Hline & Hhead & ->).
  destruct (contigName_clean (c_str lineBuffer)) as [[rest Hprefix] Hclean].
  assert (Hshape : c_str lineBuffer = ">" :: tail (c_str lineBuffer)).
  { destruct (c_str lineBuffer) as [| c s]; [discriminate Hhead |].
    cbn [first_char] in Hhead. apply byte_eqb_eq in Hhead. subst c.
    reflexivity. }
  split.
  - exists lineBuffer, rest. split; [exact Hline |].
    rewrite Hshape at 1. rewrite Hprefix. reflexivity.
  - intros x Hx. destruct (Hclean x Hx) as (Htail & Hlf & Hcr & Hsp & Hterm).
    repeat split; try assumption; try (apply Hsp; assumption).
    intros ->.
    assert (Hnul : In "000" (c_str lineBuffer))
      by (rewrite Hshape; right; exact Htail).
    apply cut_at_In in Hnul as [_ Hne]. apply Hne. reflexivity.
Qed.

End FastaNames.

Section FastaNamesRuns.
Import Int FASTA FastaFile.
Import SimpleReadWriter (Outcome, Returns, SoftExit).
Local Open Scope byte_scope.

Lemma contig_names_are_clean_witness :
  exists lineBuffer rest,
    In lineBuffer Samples.fasta /\
    c_str lineBuffer = ">" :: ["c"; "h"; "r"; "1"] ++ rest.
Proof.
  refine (proj1 (contig_names_are_clean None true 3 Samples.fasta _
                   ["c"; "h"; "r"; "1"] sample_fasta_runs _)).
  right. left. reflexivity.
Defined.

End FastaNamesRuns.

(** ** MarkALTContigIfAppropriate *)

Section MarkALT.
Import Int FASTA FastaFile.
Local Open Scope byte_scope.

Lemma bytes_eqb_refl (a : list byte) : bytes_eqb a a = true.
Proof.
  induction a as [| x a IH]; [reflexivity |].
  cbn [bytes_eqb]. rewrite IH, (proj2 (byte_eqb_eq x x) eq_refl). reflexivity.
Qed.

Lemma tolower_toupper (c : byte) : tolower (toupper c) = tolower c.
Proof. destruct c; reflexivity. Qed.

Lemma namedAt_offset (names : list byte) (count i : nat) (contigName : list byte) :
  (i < count)%nat ->
  sameIgnoringCase (drop i names) contigName = true ->
  namedAt names count contigName = true.
Proof.
  intros Hi Hsame. unfold namedAt. apply existsb_exists.
  exists i. split; [apply in_seq; lia | exact Hsame].
Qed.

(** X17.  [MarkALTContigIfAppropriate]: opting out wins.  A contig whose
    name is, but for the case of letters, the opt-out string read from
    some offset below [opt_out_alt_names_count] is never marked, whatever
    its size and the opt-in names; in particular the name itself in upper
    case opts it out.  With no opt-out names, a contig no longer than
    [maxSizeForAutomaticALT] is always marked, and with no names at all a
    contig is marked exactly when it is no longer than that. *)
Theorem opting_out_wins
    (contigName : list byte) (contigSize : Z)
    (opt_in : list byte) (opt_in_count : nat)
    (opt_out : list byte) (opt_out_count : nat) (maxSize : Z) :
  (forall i, (i < opt_out_count)%nat ->
     sameIgnoringCase (drop i opt_out) contigName = true ->
     MarkALTContigIfAppropriate contigName contigSize opt_in opt_in_count
       opt_out opt_out_count maxSize = false) /\
  ((0 < opt_out_count)%nat ->
   MarkALTContigIfAppropriate contigName contigSize opt_in opt_in_count
     (map toupper contigName) opt_out_count maxSize = false) /\
  (contigSize <= maxSize ->
   MarkALTContigIfAppropriate contigName contigSize opt_in opt_in_count
     opt_out 0 maxSize = true) /\
  (MarkALTContigIfAppropriate contigName contigSize opt_in 0 opt_out 0 maxSize
   = true <-> contigSize <= maxSize).
Proof.
  split; [| split; [| split]].
  - intros i Hi Hsame. unfold MarkALTContigIfAppropriate.
    rewrite (namedAt_offset _ _ i _ Hi Hsame). reflexivity.
  - intros Hcount. unfold MarkALTContigIfAppropriate.
    rewrite (namedAt_offset _ _ 0%nat _ Hcount); [reflexivity |].
    rewrite drop_0. unfold sameIgnoringCase.
    assert (Heq : map tolower (c_str (map toupper contigName))
                  = map tolower (c_str contigName)).
    { unfold c_str. induction contigName as [| c s IH]; [reflexivity |].
      cbn [map cut_at].
      assert (Hnul : Byte.eqb (toupper c) "000" = Byte.eqb c "000")
        by (destruct c; reflexivity).
      rewrite Hnul. destruct (Byte.eqb c "000"); [reflexivity |].
      cbn [map]. rewrite IH, tolower_toupper. reflexivity. }
    rewrite Heq. apply bytes_eqb_refl.
  - intros Hsize. unfold MarkALTContigIfAppropriate, namedAt. cbn [seq existsb].
    rewrite (proj2 (Z.leb_le _ _) Hsize). reflexivity.
  - unfold MarkALTContigIfAppropriate, namedAt. cbn [seq existsb].
    destruct (Z.leb_spec contigSize maxSize); split; intros H';
      try reflexivity; try lia; discriminate H'.
Qed.

Lemma opting_out_wins_witness :
  MarkALTContigIfAppropriate ["c"; "h"; "r"; "M"] 16000 [] 0
    ["x"; "C"; "H"; "R"; "m"] 2 1000000 = false /\
  MarkALTContigIfAppropriate ["c"; "h"; "r"; "M"] 16000 [] 0
    (map toupper ["c"; "h"; "r"; "M"]) 1 1000000 = false /\
  MarkALTContigIfAppropriate ["c"; "h"; "r"; "M"] 16000 [] 0 [] 0 1000000
  = true.
Proof.
  destruct (opting_out_wins ["c"; "h"; "r"; "M"] 16000 [] 0
              ["x"; "C"; "H"; "R"; "m"] 2 1000000) as (H1 & H2 & _ & _).
  destruct (opting_out_wins ["c"; "h"; "r"; "M"] 16000 [] 0 [] 0 1000000)
    as (_ & _ & H3 & _).
  split; [apply (H1 1%nat); [lia | reflexivity] |].
  split; [apply H2; lia | apply H3; lia].
Defined.

End MarkALT.

(** ** AppendFASTAGenome *)

Section AppendFasta.
Import Int FastaFile.

Lemma contigExtents_from (start : Z) (rest : list Z) (countOfBases : Z) :
  0 <= start <= 2 ^ 62 ->
  Forall (fun b => 0 <= b <= 2 ^ 62) rest ->
  0 <= countOfBases <= 2 ^ 62 ->
  map fst (contigExtents (start :: rest) countOfBases) = start :: rest /\
  totalSize (contigExtents (start :: rest) countOfBases)
  = countOfBases - start.
Proof.
  intros Hstart Hrest Hcount. revert start Hstart.
  induction Hrest as [| next rest Hnext _ IH]; intros start Hstart.
  - cbn [contigExtents map fst totalSize]. unfold i64_sub.
    rewrite to_i64_id by lia. split; [reflexivity | lia].
  - destruct (IH next Hnext) as [Hfst Hsum].
    change (contigExtents (start :: next :: rest) countOfBases)
      with ((start, i64_sub next start)
              :: contigExtents (next :: rest) countOfBases).
    cbn [map fst totalSize]. rewrite Hfst, Hsum. unfold i64_sub.
    rewrite to_i64_id by lia. split; [reflexivity | lia].
Qed.

(** X18.  The slices that [AppendFASTAGenome] writes: one per contig, from
    the contig's beginning, each as long as the way to the next contig's
    beginning, the last as long as the way to the end of the genome; so
    all together they are as long as the genome from the first contig's
    beginning on. *)
Theorem AppendFASTAGenome_slices (first : Z) (others : list Z)
    (countOfBases : Z) :
  0 <= first <= 2 ^ 62 ->
  Forall (fun b => 0 <= b <= 2 ^ 62) others ->
  0 <= countOfBases <= 2 ^ 62 ->
  let extents := contigExtents (first :: others) countOfBases in
  map fst extents = first :: others /\
  totalSize extents = countOfBases - first /\
  forall i start size,
    extents !! i = Some (start, size) ->
    start + size
    = match (first :: others) !! S i with
      | Some next => next
      | None => countOfBases
      end.
Proof.
  intros Hfirst Hothers Hcount. cbv zeta.
  destruct (contigExtents_from first others countOfBases Hfirst Hothers Hcount)
    as [Hfst Hsum].
  split; [exact Hfst |]. split; [exact Hsum |].
  clear Hfst Hsum. revert first Hfirst.
  induction Hothers as [| next rest Hnext _ IH]; intros first Hfirst i start size.
  - destruct i as [| i]; cbn; [| discriminate].
    intros H. injection H as <- <-. unfold i64_sub.
    rewrite to_i64_id by lia. lia.
  - change (contigExtents (first :: next :: rest) countOfBases)
      with ((first, i64_sub next first)
              :: contigExtents (next :: rest) countOfBases).
    destruct i as [| i].
    + cbn. intros H. injection H as <- <-. unfold i64_sub.
      rewrite to_i64_id by lia. lia.
    + intros H. apply (IH next Hnext i start size). exact H.
Qed.

Lemma AppendFASTAGenome_slices_witness :
  map fst (contigExtents [100; 1200] 2300) = [100; 1200] /\
  totalSize (contigExtents [100; 1200] 2300) = 2300 - 100.
Proof.
  destruct (AppendFASTAGenome_slices 100 [1200] 2300) as (H1 & H2 & _).
  - lia.
  - repeat constructor; lia.
  - lia.
  - split; assumption.
Defined.

End AppendFasta.
